(** * opencode-footprint: the CO2 tracker plugin

    A shallow embedding of [.opencode/plugins/co2-tracker.ts] and the
    properties of its classifier, estimator, grader and session accumulator.

    Conventions of the embedding.

    - A JavaScript string is a Rocq [string]; each [ascii] is read as one
      UTF-16 code unit below 256 (the Latin-1 range), which is the domain on
      which [toLowerCase] and the white space of [parseFloat] are written out.
    - Token counts and the message counter are integer-valued doubles; they
      are [Z] (exact as long as they stay within 2^53).
    - Every other JavaScript number is a [number]: [NaN], the two infinities,
      or a finite value held as an exact rational ([Qc], so that equal numbers
      are equal terms).  Rounding to binary64 and the sign of zero are not
      represented; where a property of the cost total would depend on them,
      the line that updates the cost is taken in binary64 ([costUpdate64]).
    - [Map<string, _>] is a [gmap string _]; a [Set<string>] is the list of
      its members in insertion order.
    - [Date.now()] and [process.env.OPENCODE_CO2_GRID_INTENSITY] are inputs
      of the functions that read them. *)

From Stdlib Require Import PrimFloat.
From Stdlib Require Import ZArith QArith Qcanon Ascii String List Lia Lqa Bool Sorted.
From stdpp Require Import base option list gmap strings.

Local Open Scope string_scope.
Local Open Scope Z_scope.

(** ** JavaScript numbers and strings *)

Module JS.

Inductive number : Type :=
| NaN
| Inf (negative : bool)
| Fin (q : Qc).

Definition ratio (n : Z) (d : positive) : Qc := Q2Qc (n # d).
Definition ofZ (z : Z) : number := Fin (Q2Qc (inject_Z z)).

Definition isNaN (x : number) : bool :=
  match x with NaN => true | _ => false end.

Definition isNeg (q : Qc) : bool := negb (Qle_bool 0 q).
Definition isZero (q : Qc) : bool := Qeq_bool q 0.

(** [x * y] *)
Definition mul (x y : number) : number :=
  match x, y with
  | NaN, _ | _, NaN => NaN
  | Inf s, Inf t => Inf (xorb s t)
  | Inf s, Fin q | Fin q, Inf s =>
      if isZero q then NaN else Inf (xorb s (isNeg q))
  | Fin p, Fin q => Fin (p * q)
  end.

(** [x / y] *)
Definition div (x y : number) : number :=
  match x, y with
  | NaN, _ | _, NaN => NaN
  | Inf _, Inf _ => NaN
  | Inf s, Fin q => Inf (xorb s (isNeg q))
  | Fin _, Inf _ => Fin (Q2Qc 0)
  | Fin p, Fin q =>
      if isZero q then (if isZero p then NaN else Inf (isNeg p))
      else Fin (p / q)
  end.

(** [x <= y]; false as soon as one side is NaN *)
Definition le (x y : number) : bool :=
  match x, y with
  | NaN, _ | _, NaN => false
  | Inf true, _ => true
  | _, Inf false => true
  | Inf false, _ => false
  | _, Inf true => false
  | Fin p, Fin q => Qle_bool p q
  end.

(** [x > y] *)
Definition gt (x y : number) : bool :=
  match x, y with
  | NaN, _ | _, NaN => false
  | _, Inf false => false
  | Inf true, _ => false
  | Inf false, _ => true
  | _, Inf true => true
  | Fin p, Fin q => negb (Qle_bool p q)
  end.

(** [hay.startsWith(needle)] and [hay.includes(needle)] *)
Fixpoint startsWith (needle hay : string) : bool :=
  match needle, hay with
  | EmptyString, _ => true
  | String a n, String b h => Ascii.eqb a b && startsWith n h
  | String _ _, EmptyString => false
  end.

Fixpoint includes (needle hay : string) : bool :=
  startsWith needle hay ||
  match hay with
  | EmptyString => false
  | String _ h => includes needle h
  end.

(** [String.prototype.toLowerCase] on code units below 256: A-Z, and the
    Latin-1 capitals U+00C0..U+00DE without the multiplication sign. *)
Definition lowerChar (c : ascii) : ascii :=
  let n := N_of_ascii c in
  if ((65 <=? n) && (n <=? 90) ||
      (192 <=? n) && (n <=? 222) && negb (n =? 215))%N
  then ascii_of_N (n + 32) else c.

Fixpoint toLowerCase (s : string) : string :=
  match s with
  | EmptyString => EmptyString
  | String c r => String (lowerChar c) (toLowerCase r)
  end.

(** White space and line terminators below 256 (TAB, LF, VT, FF, CR, SP,
    NBSP), skipped by [parseFloat] before it reads the literal. *)
Definition isWhiteSpace (c : ascii) : bool :=
  let n := N_of_ascii c in
  ((n =? 9) || (n =? 10) || (n =? 11) || (n =? 12) || (n =? 13) ||
   (n =? 32) || (n =? 160))%N.

Fixpoint trimStart (s : string) : string :=
  match s with
  | String c r => if isWhiteSpace c then trimStart r else s
  | EmptyString => s
  end.

Definition digitValue (c : ascii) : option Z :=
  let n := N_of_ascii c in
  if ((48 <=? n) && (n <=? 57))%N then Some (Z.of_N (n - 48)) else None.

(** Reads the longest run of decimal digits at the head of [s]: the value
    of [acc] followed by those digits, how many were read, and the rest. *)
Fixpoint scanDigits (acc : Z) (count : nat) (s : string) : Z * nat * string :=
  match s with
  | String c r =>
      match digitValue c with
      | Some d => scanDigits (10 * acc + d) (S count) r
      | None => (acc, count, s)
      end
  | EmptyString => (acc, count, s)
  end.

Definition scanSign (s : string) : bool * string :=
  match s with
  | String "+" r => (false, r)
  | String "-" r => (true, r)
  | _ => (false, s)
  end.

(** ExponentPart, when one is present at the head of [s]; 0 otherwise
    (an [e] not followed by a signed integer is not part of the literal). *)
Definition scanExponent (s : string) : Z :=
  match s with
  | String c r =>
      if Ascii.eqb c "e" || Ascii.eqb c "E" then
        let '(neg, r') := scanSign r in
        let '(e, n, _) := scanDigits 0 0 r' in
        if Nat.eqb n 0 then 0 else if neg then - e else e
      else 0
  | EmptyString => 0
  end.

(** [m * 10^k] *)
Definition scale10 (m k : Z) : Qc :=
  if 0 <=? k then Q2Qc (inject_Z (m * 10 ^ k))
  else Q2Qc (m # Z.to_pos (10 ^ (- k))).

(** [parseFloat]: the value of the longest prefix of the trimmed input that
    is a StrDecimalLiteral, NaN when there is none.  The value of a decimal
    literal is its exact value: the rounding to a double -- hence the overflow
    of a huge literal to Infinity and the underflow of a tiny one to 0 -- is
    not represented. *)
Definition parseFloat (input : string) : number :=
  let '(neg, u) := scanSign (trimStart input) in
  if startsWith "Infinity" u then Inf neg
  else
    let '(ip, ni, r1) := scanDigits 0 0 u in
    let '(m, nf, r2) :=
      match r1 with
      | String "." r => scanDigits ip 0 r
      | _ => (ip, 0%nat, r1)
      end in
    if Nat.eqb ni 0 && Nat.eqb nf 0 then NaN
    else Fin (scale10 (if neg then - m else m) (scanExponent r2 - Z.of_nat nf)).

End JS.

Import JS.

(** ** Model classification *)

Inductive ModelTier : Type := small | medium | large.

(** What reading a property of the object literal [MODEL_SIZE] yields when it
    is not [undefined]: the tier stored under an own key, or a member that the
    literal inherits from [Object.prototype] (a function, or for [__proto__]
    the prototype object itself).  Both kinds are truthy. *)
Inductive Property : Type :=
| tier (t : ModelTier)
| inherited (name : string).

Definition MODEL_SIZE : gmap string ModelTier :=
  list_to_map
  [ ("claude-haiku-4-5", small);
    ("claude-sonnet-4-5", medium);
    ("claude-sonnet-4", medium);
    ("claude-opus-4", large);
    ("gpt-4o-mini", small);
    ("gpt-4.1-mini", small);
    ("gpt-4.1-nano", small);
    ("gpt-4o", medium);
    ("gpt-4.1", medium);
    ("o3-mini", medium);
    ("o3", large);
    ("o4-mini", medium);
    ("gemini-2.0-flash", small);
    ("gemini-2.5-flash", small);
    ("gemini-2.5-pro", medium) ].

(** The property names every object literal inherits. *)
Definition Object_prototype : list string :=
  [ "constructor"; "hasOwnProperty"; "isPrototypeOf"; "propertyIsEnumerable";
    "toLocaleString"; "toString"; "valueOf"; "__proto__";
    "__defineGetter__"; "__defineSetter__";
    "__lookupGetter__"; "__lookupSetter__" ].

(** [MODEL_SIZE[modelID]]: own keys first, then the prototype. *)
Definition MODEL_SIZE_get (modelID : string) : option Property :=
  match MODEL_SIZE !! modelID with
  | Some t => Some (tier t)
  | None =>
      if existsb (String.eqb modelID) Object_prototype
      then Some (inherited modelID) else None
  end.

Definition classifyModel (modelID : string) : Property :=
  match MODEL_SIZE_get modelID with
  | Some v => v
  | None =>
      let id := toLowerCase modelID in
      if includes "haiku" id || includes "mini" id ||
         includes "nano" id || includes "flash" id
      then tier small
      else if includes "opus" id || (includes "o3" id && negb (includes "mini" id))
      then tier large
      else tier medium
  end.

(** ** Energy and CO2 *)

Definition ENERGY_PER_TOKEN_KWH (cls : ModelTier) : number :=
  match cls with
  | small => Fin (ratio 3 10000000)
  | medium => Fin (ratio 1 1000000)
  | large => Fin (ratio 3 1000000)
  end.

Definition DEFAULT_GRID_INTENSITY : number := ofZ 400.

(** [env] is [process.env.OPENCODE_CO2_GRID_INTENSITY]; [None] when unset.
    The empty string is falsy. *)
Definition getGridIntensity (env : option string) : number :=
  match env with
  | Some (String _ _ as s) =>
      let parsed := parseFloat s in
      if negb (isNaN parsed) && gt parsed (ofZ 0) then parsed
      else DEFAULT_GRID_INTENSITY
  | _ => DEFAULT_GRID_INTENSITY
  end.

(** ** Eco grade *)

Record EcoGrade : Type := {
  grade : string;
  label : string;
  level : Z;
  tip : string
}.

Record Threshold : Type := {
  maxPerMsg : number;
  threshold_grade : EcoGrade
}.

Definition ECO_THRESHOLDS : list Threshold :=
  [ {| maxPerMsg := Fin (ratio 1 10);
       threshold_grade :=
         {| grade := "A+"; label := "Exemplary"; level := 1;
            tip := "Your session is incredibly efficient. Keep it up!" |} |};
    {| maxPerMsg := Fin (ratio 3 10);
       threshold_grade :=
         {| grade := "A"; label := "Excellent"; level := 2;
            tip := "Great efficiency! Small models and focused prompts pay off." |} |};
    {| maxPerMsg := Fin (ratio 8 10);
       threshold_grade :=
         {| grade := "B"; label := "Good"; level := 3;
            tip := "Solid session. Consider using smaller models for simpler tasks." |} |};
    {| maxPerMsg := Fin (ratio 15 10);
       threshold_grade :=
         {| grade := "B-"; label := "Above Average"; level := 4;
            tip := "Not bad! Try batching questions to reduce message overhead." |} |};
    {| maxPerMsg := Fin (ratio 3 1);
       threshold_grade :=
         {| grade := "C"; label := "Moderate"; level := 6;
            tip := "Consider using a smaller model for routine tasks to cut emissions." |} |};
    {| maxPerMsg := Fin (ratio 6 1);
       threshold_grade :=
         {| grade := "D"; label := "High Impact"; level := 8;
            tip := "This session is carbon-heavy. Smaller models can reduce your footprint by up to 10x." |} |};
    {| maxPerMsg := Inf false;
       threshold_grade :=
         {| grade := "F"; label := "Very High Impact"; level := 10;
            tip := "Consider breaking work into smaller sessions and using efficient models." |} |} ].

(** The [for ... of] loop of [getEcoGrade]: the first entry whose bound is
    not below [perMsg]; [None] when the loop runs to its end. *)
Fixpoint firstWithin (perMsg : number) (ts : list Threshold) : option EcoGrade :=
  match ts with
  | [] => None
  | t :: rest =>
      if le perMsg (maxPerMsg t) then Some (threshold_grade t)
      else firstWithin perMsg rest
  end.

(** [ts[ts.length - 1].grade], the return after the loop.  [noThreshold]
    stands for the element of an empty array, which the ladder is not. *)
Definition noThreshold : Threshold :=
  {| maxPerMsg := NaN;
     threshold_grade := {| grade := EmptyString; label := EmptyString;
                           level := 0; tip := EmptyString |} |}.

Definition lastGrade (ts : list Threshold) : EcoGrade :=
  threshold_grade (List.last ts noThreshold).

Definition perMessage (co2Grams : number) (messageCount : Z) : number :=
  if 0 <? messageCount then div co2Grams (ofZ messageCount) else ofZ 0.

Definition getEcoGrade (co2Grams : number) (messageCount : Z) : EcoGrade :=
  let perMsg := perMessage co2Grams messageCount in
  match firstWithin perMsg ECO_THRESHOLDS with
  | Some g => g
  | None => lastGrade ECO_THRESHOLDS
  end.

(** ** Per-session accumulator *)

(** [Set.prototype.add]: a member is appended once, in insertion order. *)
Definition set_add (x : string) (s : list string) : list string :=
  if existsb (String.eqb x) s then s else s ++ [x].

Record SessionStats : Type := {
  inputTokens : Z;
  outputTokens : Z;
  reasoningTokens : Z;
  cacheReadTokens : Z;
  cacheWriteTokens : Z;
  cost : Qc;
  messages : Z;
  models : list string;
  providers : list string;
  firstSeen : Z
}.

(** [now] is the reading of [Date.now()]. *)
Definition newSessionStats (now : Z) : SessionStats :=
  {| inputTokens := 0;
     outputTokens := 0;
     reasoningTokens := 0;
     cacheReadTokens := 0;
     cacheWriteTokens := 0;
     cost := Q2Qc 0;
     messages := 0;
     models := [];
     providers := [];
     firstSeen := now |}.

(** The values of [messageSnapshots]. *)
Record Snapshot : Type := {
  snap_input : Z;
  snap_output : Z;
  snap_reasoning : Z;
  snap_cacheRead : Z;
  snap_cacheWrite : Z;
  snap_cost : Qc
}.

(** [event.properties.info] of a [message.updated] event. *)
Record Cache : Type := { read : Z; write : Z }.

Record Tokens : Type := {
  input : Z;
  output : Z;
  reasoning : Z;
  cache : Cache
}.

Record Message : Type := {
  msg_id : string;
  sessionID : string;
  role : string;
  msg_cost : Qc;
  tokens : Tokens;
  modelID : string;
  providerID : string
}.

Inductive Event : Type :=
| message_updated (info : Message)
| other_event (type : string).

(** The two maps the plugin closes over. *)
Record Plugin : Type := {
  sessions : gmap string SessionStats;
  messageSnapshots : gmap string Snapshot
}.

Definition init : Plugin := {| sessions := ∅; messageSnapshots := ∅ |}.

Definition zeroSnapshot : Snapshot :=
  {| snap_input := 0; snap_output := 0; snap_reasoning := 0;
     snap_cacheRead := 0; snap_cacheWrite := 0; snap_cost := Q2Qc 0 |}.

Definition snapshotOf (msg : Message) : Snapshot :=
  {| snap_input := input (tokens msg);
     snap_output := output (tokens msg);
     snap_reasoning := reasoning (tokens msg);
     snap_cacheRead := read (cache (tokens msg));
     snap_cacheWrite := write (cache (tokens msg));
     snap_cost := msg_cost msg |}.

(** The template literal [`${msg.sessionID}:${msg.id}`]. *)
Definition messageKey (sid mid : string) : string :=
  (sid ++ ":" ++ mid)%string.

(** The body of the handler once the role test has passed: [stats] is the
    session's record (fresh when the session is new), [prev] and [isNew] come
    from [messageSnapshots]. *)
Definition accumulate (stats : SessionStats) (prev : Snapshot) (isNew : bool)
    (msg : Message) : SessionStats :=
  {| inputTokens := inputTokens stats + (input (tokens msg) - snap_input prev);
     outputTokens := outputTokens stats + (output (tokens msg) - snap_output prev);
     reasoningTokens :=
       reasoningTokens stats + (reasoning (tokens msg) - snap_reasoning prev);
     cacheReadTokens :=
       cacheReadTokens stats + (read (cache (tokens msg)) - snap_cacheRead prev);
     cacheWriteTokens :=
       cacheWriteTokens stats + (write (cache (tokens msg)) - snap_cacheWrite prev);
     cost := (cost stats + (msg_cost msg - snap_cost prev))%Qc;
     messages := if isNew then messages stats + 1 else messages stats;
     models := set_add (modelID msg) (models stats);
     providers := set_add (providerID msg) (providers stats);
     firstSeen := firstSeen stats |}.

Definition statsOf (now : Z) (st : Plugin) (sid : string) : SessionStats :=
  match sessions st !! sid with
  | Some stats => stats
  | None => newSessionStats now
  end.

Definition prevOf (st : Plugin) (key : string) : Snapshot :=
  match messageSnapshots st !! key with
  | Some prev => prev
  | None => zeroSnapshot
  end.

Definition isNewKey (st : Plugin) (key : string) : bool :=
  match messageSnapshots st !! key with
  | Some _ => false
  | None => true
  end.

(** The [event] hook; [now] is what [Date.now()] returns during the call. *)
Definition event (now : Z) (ev : Event) (st : Plugin) : Plugin :=
  match ev with
  | message_updated msg =>
      if negb (String.eqb (role msg) "assistant") then st
      else
        let key := messageKey (sessionID msg) (msg_id msg) in
        let stats := statsOf now st (sessionID msg) in
        let prev := prevOf st key in
        let isNew := isNewKey st key in
        {| sessions :=
             <[sessionID msg := accumulate stats prev isNew msg]> (sessions st);
           messageSnapshots :=
             <[key := snapshotOf msg]> (messageSnapshots st) |}
  | other_event _ => st
  end.

(** A run of the hook over a stream of events, each with its clock reading. *)
Fixpoint run (evs : list (Z * Event)) (st : Plugin) : Plugin :=
  match evs with
  | [] => st
  | (now, ev) :: rest => run rest (event now ev st)
  end.

(** ** The estimate of a session *)

(** The loop of [computeCO2] over [stats.models], entered with
    [dominantClass]; a large model ends it at once. *)
Fixpoint dominantLoop (ms : list string) (dominantClass : ModelTier) : ModelTier :=
  match ms with
  | [] => dominantClass
  | m :: rest =>
      match classifyModel m with
      | tier large => large
      | tier medium => dominantLoop rest medium
      | _ => dominantLoop rest dominantClass
      end
  end.

Record Estimate : Type := {
  totalTokens : Z;
  energyKwh : number;
  co2Grams : number
}.

Definition computeCO2 (env : option string) (stats : SessionStats) : Estimate :=
  let gridIntensity := getGridIntensity env in
  let total := inputTokens stats + outputTokens stats + reasoningTokens stats in
  let dominantClass := dominantLoop (models stats) small in
  let energyPerToken := ENERGY_PER_TOKEN_KWH dominantClass in
  let energy := mul (ofZ total) energyPerToken in
  {| totalTokens := total;
     energyKwh := energy;
     co2Grams := mul energy gridIntensity |}.

(** ** The report *)

(** [impactBar]: an opening bracket, [filled] full blocks (U+2588), [empty]
    light shades (U+2591), a closing bracket.  The two block characters lie
    outside the Latin-1 range, so the bar is the list of its UTF-16 code
    units.  [level] is an integer, as every level of the ladder is; the
    counts handed to [repeat] are then within 0..10. *)
Definition FULL_BLOCK : N := 9608.
Definition LIGHT_SHADE : N := 9617.

Definition impactBar (lvl : Z) : list N :=
  let max := 10 in
  let filled := Z.min (Z.max lvl 0) max in
  let empty := max - filled in
  ([91%N] ++ repeat FULL_BLOCK (Z.to_nat filled)
          ++ repeat LIGHT_SHADE (Z.to_nat empty) ++ [93%N])%list.

Definition newline : string := String (ascii_of_N 10) EmptyString.

(** [modelLines] and [providerLines] of [formatReport]. *)
Definition modelLines (stats : SessionStats) : string :=
  match models stats with
  | [] => "- None recorded"
  | ms => String.concat newline (map (fun m => "- **" ++ m ++ "**")%string ms)
  end.

Definition providerLines (stats : SessionStats) : string :=
  match providers stats with
  | [] => "- None recorded"
  | ps => String.concat newline (map (fun p => "- " ++ p)%string ps)
  end.

(** The grade [formatReport] derives from the estimate before it renders
    it.  (The rendering itself, with [toFixed], [toLocaleString] and the
    clock, is not represented.) *)
Definition reportGrade (env : option string) (stats : SessionStats) : EcoGrade :=
  getEcoGrade (co2Grams (computeCO2 env stats)) (messages stats).

(** What the [co2_report] tool answers for [context.sessionID]: the fixed
    "No usage data recorded yet" text, or [formatReport(stats)] for the
    record of the session. *)
Inductive ToolAnswer : Type :=
| no_data
| report (stats : SessionStats).

Definition co2_report (st : Plugin) (contextSessionID : string) : ToolAnswer :=
  match sessions st !! contextSessionID with
  | Some stats => if messages stats =? 0 then no_data else report stats
  | None => no_data
  end.

(** ** Notions used to state the properties *)

(** The key an update is stored under. *)
Definition keyOf (m : Message) : string := messageKey (sessionID m) (msg_id m).

(** [ev] is an assistant update stored under [key]: the events that read and
    write that slot of [messageSnapshots]. *)
Definition touches (key : string) (ev : Event) : bool :=
  match ev with
  | message_updated msg =>
      String.eqb (role msg) "assistant" && String.eqb (keyOf msg) key
  | other_event _ => false
  end.

Definition untouched (key : string) (evs : list (Z * Event)) : bool :=
  forallb (fun e => negb (touches key (snd e))) evs.

(** An update with the given identifiers, role and cumulative usage. *)
Definition update (sid mid r : string) (tin tout : Z) (c : Qc) (model : string)
  : Message :=
  {| msg_id := mid; sessionID := sid; role := r; msg_cost := c;
     tokens := {| input := tin; output := tout; reasoning := 0;
                  cache := {| read := 0; write := 0 |} |};
     modelID := model; providerID := "anthropic" |}.

(** The assistant updates of a stream, in order of arrival, and the message
    identifiers a session receives them for. *)
Definition assistantUpdate (ev : Event) : option Message :=
  match ev with
  | message_updated msg =>
      if String.eqb (role msg) "assistant" then Some msg else None
  | other_event _ => None
  end.

Definition assistantUpdates (evs : list (Z * Event)) : list Message :=
  omap (fun e => assistantUpdate (snd e)) evs.

Definition messageIds (sid : string) (evs : list (Z * Event)) : list string :=
  omap (fun m => if String.eqb (sessionID m) sid then Some (msg_id m) else None)
    (assistantUpdates evs).

(** The number of distinct members of a list of identifiers. *)
Definition distinctCount (ids : list string) : Z :=
  Z.of_nat (size (list_to_set ids : gset string)).

(** No two assistant updates of the stream that belong to different
    (session, message) pairs are stored under the same key. *)
Definition sameSlot (m m' : Message) : bool := String.eqb (keyOf m) (keyOf m').

Definition samePair (m m' : Message) : bool :=
  String.eqb (sessionID m) (sessionID m') && String.eqb (msg_id m) (msg_id m').

Definition collisionFree (evs : list (Z * Event)) : bool :=
  let ups := assistantUpdates evs in
  forallb (fun m => forallb (fun m' => implb (sameSlot m m') (samePair m m')) ups) ups.

Definition injectiveOn (ups : list Message) : Prop :=
  ∀ m m', m ∈ ups → m' ∈ ups → keyOf m = keyOf m' →
          sessionID m = sessionID m' ∧ msg_id m = msg_id m'.

(** What the two maps hold after the hook has handled the stream [done],
    started from the empty maps: a slot for the key of every assistant
    update, and for each session the number of distinct messages updated. *)
Definition consistent (done : list (Z * Event)) (st : Plugin) : Prop :=
  (∀ key, is_Some (messageSnapshots st !! key) ↔
          ∃ m, m ∈ assistantUpdates done ∧ keyOf m = key) ∧
  (∀ now sid, messages (statsOf now st sid) = distinctCount (messageIds sid done)).

(** [classifyModel m === t] for a tier [t]. *)
Definition classifiesAs (t : ModelTier) (m : string) : bool :=
  match classifyModel m, t with
  | tier small, small | tier medium, medium | tier large, large => true
  | _, _ => false
  end.

(** The dominant tier in the words of the specification: the highest tier
    present among the classifications, large before medium before small. *)
Definition highestTier (ms : list string) : ModelTier :=
  if existsb (classifiesAs large) ms then large
  else if existsb (classifiesAs medium) ms then medium
  else small.

(** The markers of the substring heuristic. *)
Definition hasSmallMarker (id : string) : bool :=
  includes "haiku" id || includes "mini" id || includes "nano" id || includes "flash" id.

Definition hasLargeMarker (id : string) : bool :=
  includes "opus" id || includes "o3" id.

(** The ladder as (bound, letter) pairs, and the order of the grades: a grade
    is better than another when its impact level is lower. *)
Definition ladder : list (number * string) :=
  map (fun t => (maxPerMsg t, grade (threshold_grade t))) ECO_THRESHOLDS.

Definition noWorse (g g' : EcoGrade) : Prop := level g ≤ level g'.

(** The members of a list in order of first appearance: what a [Set] holds
    after the members have been added one by one. *)
Definition distinctList (l : list string) : list string :=
  foldl (fun acc x => set_add x acc) [] l.

(** The model and provider identifiers a session receives assistant updates
    with, and the clock reading of the first of these updates. *)
Definition modelIds (sid : string) (evs : list (Z * Event)) : list string :=
  omap (fun m => if String.eqb (sessionID m) sid then Some (modelID m) else None)
    (assistantUpdates evs).

Definition providerIds (sid : string) (evs : list (Z * Event)) : list string :=
  omap (fun m => if String.eqb (sessionID m) sid then Some (providerID m) else None)
    (assistantUpdates evs).

Definition isUpdateOf (sid : string) (ev : Event) : bool :=
  match assistantUpdate ev with
  | Some m => String.eqb (sessionID m) sid
  | None => false
  end.

Fixpoint firstUpdate (sid : string) (evs : list (Z * Event)) : option Z :=
  match evs with
  | [] => None
  | (t, ev) :: rest => if isUpdateOf sid ev then Some t else firstUpdate sid rest
  end.

(** The snapshot of the last assistant update of the stream stored under
    [key], starting from what the slot held before. *)
Definition store (key : string) (slot : option Snapshot) (ev : Event)
  : option Snapshot :=
  match assistantUpdate ev with
  | Some m => if String.eqb (keyOf m) key then Some (snapshotOf m) else slot
  | None => slot
  end.

Definition lastStored (key : string) (slot : option Snapshot)
    (evs : list (Z * Event)) : option Snapshot :=
  foldl (fun acc e => store key acc (snd e)) slot evs.

(** The sum of [f] over a list of identifiers. *)
Definition sumOver (f : string -> Z) (ids : list string) : Z :=
  foldr (fun x acc => f x + acc) 0 ids.

(** The order of the tiers by impact. *)
Definition tierRank (t : ModelTier) : Z :=
  match t with small => 0 | medium => 1 | large => 2 end.

(** The same sum over any carrier with an addition. *)
Definition sumWith {A : Type} (add : A -> A -> A) (zero : A) (f : string -> A)
    (ids : list string) : A :=
  foldr (fun x acc => add (f x) acc) zero ids.

(** The part of a stream that consists of the assistant updates of one
    session. *)
Definition ownUpdates (sid : string) (evs : list (Z * Event)) : list (Z * Event) :=
  List.filter (fun e => isUpdateOf sid (snd e)) evs.


(** A record without its start: what two records have in common when they
    differ by [firstSeen] only. *)
Definition forgetStart (stats : SessionStats) : SessionStats :=
  {| inputTokens := inputTokens stats;
     outputTokens := outputTokens stats;
     reasoningTokens := reasoningTokens stats;
     cacheReadTokens := cacheReadTokens stats;
     cacheWriteTokens := cacheWriteTokens stats;
     cost := cost stats;
     messages := messages stats;
     models := models stats;
     providers := providers stats;
     firstSeen := 0 |}.

Definition sameButStart (st st' : Plugin) : Prop :=
  messageSnapshots st = messageSnapshots st' ∧
  forgetStart <$> sessions st = forgetStart <$> sessions st'.

(** The three totals [computeCO2] adds up are integers that doubles hold
    exactly, and so is their sum. *)
Definition safeInteger (z : Z) : bool := Z.abs z <? 2 ^ 51.

Definition safeTotals (stats : SessionStats) : bool :=
  safeInteger (inputTokens stats) && safeInteger (outputTokens stats) &&
  safeInteger (reasoningTokens stats).

(** * Properties *)

(** ** The event hook, one event at a time *)

Lemma event_skip now msg st :
  role msg ≠ "assistant" → event now (message_updated msg) st = st.
Proof.
  intros Hrole. unfold event.
  destruct (String.eqb_spec (role msg) "assistant") as [E | _]; [ | reflexivity ].
  contradiction.
Qed.

Lemma event_assistant now msg st :
  role msg = "assistant" →
  event now (message_updated msg) st =
  let key := messageKey (sessionID msg) (msg_id msg) in
  {| sessions :=
       <[sessionID msg :=
           accumulate (statsOf now st (sessionID msg)) (prevOf st key)
             (isNewKey st key) msg]> (sessions st);
     messageSnapshots := <[key := snapshotOf msg]> (messageSnapshots st) |}.
Proof. intros Hrole. unfold event. rewrite Hrole. reflexivity. Qed.

Lemma set_add_elem x s : existsb (String.eqb x) (set_add x s) = true.
Proof.
  unfold set_add. destruct (existsb (String.eqb x) s) eqn:E; [ exact E | ].
  rewrite existsb_app, E. simpl. rewrite String.eqb_refl. reflexivity.
Qed.

Lemma set_add_idem x s : set_add x (set_add x s) = set_add x s.
Proof. unfold set_add at 1. rewrite set_add_elem. reflexivity. Qed.

Lemma Qc_add_sub_same (c a : Qc) : (c + (a - a))%Qc = c.
Proof. ring. Qed.

(** Re-applying a message to the record it has just produced, against its
    own snapshot and not as a new message, changes nothing. *)
Lemma accumulate_again stats prev isNew msg :
  accumulate (accumulate stats prev isNew msg) (snapshotOf msg) false msg =
  accumulate stats prev isNew msg.
Proof.
  unfold accumulate at 1. cbn [snapshotOf snap_input snap_output snap_reasoning
    snap_cacheRead snap_cacheWrite snap_cost].
  rewrite !Z.sub_diag, !Z.add_0_r, Qc_add_sub_same.
  unfold accumulate.
  cbn [inputTokens outputTokens reasoningTokens cacheReadTokens
       cacheWriteTokens cost messages models providers firstSeen].
  rewrite !set_add_idem. reflexivity.
Qed.

(** C1. Handling the same event a second time, right after the first, leaves
    the whole plugin state -- hence every field of every SessionStats and
    every stored snapshot -- as the first handling left it, whatever the
    clock reads: the deltas against the snapshot just stored are zero and the
    message is not counted again. *)
Theorem duplicate_update_idempotent (now now' : Z) (ev : Event) (st : Plugin) :
  event now' ev (event now ev st) = event now ev st.
Proof.
  destruct ev as [msg | ty]; [ | reflexivity ].
  destruct (String.eqb_spec (role msg) "assistant") as [Hrole | Hrole].
  - rewrite (event_assistant now msg st Hrole). cbv zeta.
    rewrite event_assistant by exact Hrole. cbv zeta.
    unfold statsOf, prevOf, isNewKey. cbn [sessions messageSnapshots].
    rewrite !lookup_insert_eq, !insert_insert_eq.
    rewrite accumulate_again. reflexivity.
  - rewrite !(event_skip _ msg) by exact Hrole. reflexivity.
Qed.

(** C10. An update whose role is not "assistant" changes nothing: the
    sessions and the message snapshots after the call are those before it. *)
Theorem non_assistant_is_noop (now : Z) (msg : Message) (st : Plugin) :
  role msg ≠ "assistant" → event now (message_updated msg) st = st.
Proof. apply event_skip. Qed.

Lemma non_assistant_is_noop_witness :
  let msg := update "ses_1" "msg_1" "user" 10 0 (ratio 0 1) "gpt-4o" in
  event 7 (message_updated msg) init = init.
Proof. cbv zeta. apply non_assistant_is_noop. discriminate. Defined.

(** What one assistant update does to the record of its session. *)
Lemma event_stats now now' msg st :
  role msg = "assistant" →
  statsOf now' (event now (message_updated msg) st) (sessionID msg) =
  accumulate (statsOf now st (sessionID msg))
    (prevOf st (messageKey (sessionID msg) (msg_id msg)))
    (isNewKey st (messageKey (sessionID msg) (msg_id msg))) msg.
Proof.
  intros Hrole. rewrite event_assistant by exact Hrole. cbv zeta.
  unfold statsOf at 1. cbn [sessions]. rewrite lookup_insert_eq. reflexivity.
Qed.

Lemma event_snapshot now msg st :
  role msg = "assistant" →
  messageSnapshots (event now (message_updated msg) st)
    !! messageKey (sessionID msg) (msg_id msg) = Some (snapshotOf msg).
Proof.
  intros Hrole. rewrite event_assistant by exact Hrole. cbv zeta.
  cbn [messageSnapshots]. apply lookup_insert_eq.
Qed.

(** Events that are not stored under [key] leave that slot alone. *)
Lemma event_frame now ev st key :
  touches key ev = false →
  messageSnapshots (event now ev st) !! key = messageSnapshots st !! key.
Proof.
  destruct ev as [msg | ty]; [ | reflexivity ].
  unfold touches, keyOf, event.
  destruct (String.eqb_spec (role msg) "assistant") as [_ | _]; [ | reflexivity ].
  cbn [andb negb messageSnapshots].
  intros Hkey. apply String.eqb_neq in Hkey.
  apply lookup_insert_ne. exact Hkey.
Qed.

Lemma run_frame evs st key :
  untouched key evs = true →
  messageSnapshots (run evs st) !! key = messageSnapshots st !! key.
Proof.
  revert st. induction evs as [ | [now ev] evs IH ]; intros st H; [ reflexivity | ].
  cbn in H. apply andb_prop in H as [Hev Hrest].
  cbn [run]. rewrite IH by exact Hrest.
  apply event_frame. apply negb_true_iff. exact Hev.
Qed.

Lemma prevOf_stored st key snap :
  messageSnapshots st !! key = Some snap → prevOf st key = snap.
Proof. intros H. unfold prevOf. rewrite H. reflexivity. Qed.

(** X23. Every assistant update adds, to each of the five token totals and to
    the cost total of its session, the difference between the value it
    carries and the value of the stored prior snapshot -- the all-zero
    snapshot when the slot is empty.  So when the successive updates of one
    message carry the cumulative input counts 0, 50 and 120, and the events
    that come in between leave the message's slot alone, the input total of
    the session grows by exactly 50 on the second update and by exactly 70
    on the third. *)
Theorem delta_accumulation :
  (∀ (now : Z) (msg : Message) (st : Plugin),
      role msg = "assistant" →
      let key := messageKey (sessionID msg) (msg_id msg) in
      let prior := prevOf st key in
      let before := statsOf now st (sessionID msg) in
      let after := statsOf now (event now (message_updated msg) st) (sessionID msg) in
      (messageSnapshots st !! key = None → prior = zeroSnapshot) ∧
      inputTokens after = inputTokens before + (input (tokens msg) - snap_input prior) ∧
      outputTokens after = outputTokens before + (output (tokens msg) - snap_output prior) ∧
      reasoningTokens after =
        reasoningTokens before + (reasoning (tokens msg) - snap_reasoning prior) ∧
      cacheReadTokens after =
        cacheReadTokens before + (read (cache (tokens msg)) - snap_cacheRead prior) ∧
      cacheWriteTokens after =
        cacheWriteTokens before + (write (cache (tokens msg)) - snap_cacheWrite prior) ∧
      cost after = (cost before + (msg_cost msg - snap_cost prior))%Qc) ∧
  (∀ (t0 t1 t2 t : Z) (m0 m1 m2 : Message) (sid mid : string)
     (between1 between2 : list (Z * Event)) (st : Plugin),
      Forall (λ m, role m = "assistant" ∧ sessionID m = sid ∧ msg_id m = mid)
        [m0; m1; m2] →
      input (tokens m0) = 0 → input (tokens m1) = 50 → input (tokens m2) = 120 →
      untouched (messageKey sid mid) between1 = true →
      untouched (messageKey sid mid) between2 = true →
      let total s := inputTokens (statsOf t s sid) in
      let s1 := run between1 (event t0 (message_updated m0) st) in
      let s2 := run between2 (event t1 (message_updated m1) s1) in
      total (event t1 (message_updated m1) s1) = total s1 + 50 ∧
      total (event t2 (message_updated m2) s2) = total s2 + 70).
Proof.
  split.
  - intros now msg st Hrole key prior before after.
    split.
    { intros Hnone. subst prior. unfold prevOf. rewrite Hnone. reflexivity. }
    subst after. rewrite event_stats by exact Hrole.
    repeat split; reflexivity.
  - intros t0 t1 t2 t m0 m1 m2 sid mid between1 between2 st Hall Hin0 Hin1 Hin2
      Hb1 Hb2 total s1 s2.
    apply Forall_cons in Hall as [(Hr0 & Hs0 & Hm0) Hall].
    apply Forall_cons in Hall as [(Hr1 & Hs1 & Hm1) Hall].
    apply Forall_cons in Hall as [(Hr2 & Hs2 & Hm2) _].
    assert (Hslot1 : messageSnapshots s1 !! messageKey sid mid = Some (snapshotOf m0)).
    { subst s1. rewrite run_frame by exact Hb1.
      rewrite <- Hs0, <- Hm0. apply event_snapshot, Hr0. }
    assert (Hslot2 : messageSnapshots s2 !! messageKey sid mid = Some (snapshotOf m1)).
    { subst s2. rewrite run_frame by exact Hb2.
      rewrite <- Hs1, <- Hm1. apply event_snapshot, Hr1. }
    subst total. cbv beta. split.
    + rewrite <- Hs1 at 1. rewrite (event_stats t1 t m1 s1 Hr1).
      rewrite Hs1, Hm1, (prevOf_stored _ _ _ Hslot1).
      unfold statsOf at 2. unfold accumulate. cbn [inputTokens snapshotOf snap_input].
      unfold statsOf. destruct (sessions s1 !! sid); cbn; lia.
    + rewrite <- Hs2 at 1. rewrite (event_stats t2 t m2 s2 Hr2).
      rewrite Hs2, Hm2, (prevOf_stored _ _ _ Hslot2).
      unfold accumulate. cbn [inputTokens snapshotOf snap_input].
      unfold statsOf. destruct (sessions s2 !! sid); cbn; lia.
Qed.

Lemma delta_accumulation_witness :
  let m n := update "ses_1" "msg_1" "assistant" n 0 (ratio 0 1) "claude-opus-4" in
  let other := (4, message_updated (update "ses_1" "msg_2" "assistant" 999 1 (ratio 1 2) "o3")) in
  let total s := inputTokens (statsOf 0 s "ses_1") in
  let s1 := run [other] (event 1 (message_updated (m 0)) init) in
  let s2 := run [] (event 2 (message_updated (m 50)) s1) in
  (inputTokens (statsOf 1 (event 1 (message_updated (m 0)) init) "ses_1") =
     inputTokens (statsOf 1 init "ses_1") + (0 - 0)) ∧
  total (event 2 (message_updated (m 50)) s1) = total s1 + 50 ∧
  total (event 3 (message_updated (m 120)) s2) = total s2 + 70.
Proof.
  cbv zeta. split.
  - apply (proj1 delta_accumulation 1
             (update "ses_1" "msg_1" "assistant" 0 0 (ratio 0 1) "claude-opus-4") init).
    reflexivity.
  - apply (proj2 delta_accumulation 1 2 3 0 _ _ _ "ses_1" "msg_1"); try reflexivity.
    repeat constructor.
Defined.

(** C2 does not hold of the code.  The slot of a message is found under the
    concatenation of the two identifiers, so an update of another pair with
    the same concatenation overwrites it.  Here the message "b:c" of session
    "a" carries the input counts 0, 50 and 120, and an update of the message
    "c" of session "a:b", with the count 1000, arrives before the third: the
    input total of "a" is 0, then 50, and then falls to -830, the third
    update being accounted against the other message's snapshot. *)
Theorem delta_key_collision :
  let own n := update "a" "b:c" "assistant" n 0 (ratio 0 1) "gpt-4o" in
  let other := update "a:b" "c" "assistant" 1000 0 (ratio 0 1) "gpt-4o" in
  let s1 := event 1 (message_updated (own 0)) init in
  let s2 := event 2 (message_updated (own 50)) s1 in
  let s3 := event 3 (message_updated other) s2 in
  let s4 := event 4 (message_updated (own 120)) s3 in
  let total s := inputTokens (statsOf 0 s "a") in
  (sessionID (own 120), msg_id (own 120)) ≠ (sessionID other, msg_id other) ∧
  keyOf (own 120) = keyOf other ∧
  total s1 = 0 ∧ total s2 = 50 ∧ total s3 = 50 ∧ total s4 = -830 ∧
  prevOf s3 (keyOf (own 120)) = snapshotOf other ∧
  total s4 ≠ total s3 + 70.
Proof.
  cbv zeta. split; [ discriminate | ].
  repeat (split; [ reflexivity | ]). discriminate.
Qed.






(** ** Snapshot keys *)

Lemma includes_colon_cons c s :
  includes ":" (String c s) = false → c ≠ ":"%char ∧ includes ":" s = false.
Proof.
  cbn [includes startsWith]. rewrite andb_true_r.
  intros H. apply orb_false_elim in H as [Hc Hs]. split; [ | exact Hs ].
  intros ->. discriminate.
Qed.

Lemma messageKey_nil m : messageKey "" m = String ":" m.
Proof. reflexivity. Qed.

Lemma messageKey_cons c s m : messageKey (String c s) m = String c (messageKey s m).
Proof. reflexivity. Qed.

Lemma includes_colon_key s m : includes ":" (messageKey s m) = true.
Proof.
  induction s as [ | c s IH ]; [ reflexivity | ].
  rewrite messageKey_cons. cbn [includes]. rewrite IH. apply orb_true_r.
Qed.

(** The key determines the pair when the session identifiers have no colon:
    the session is what comes before the first colon of the key. *)
Lemma messageKey_inj_sessions s1 m1 s2 m2 :
  includes ":" s1 = false → includes ":" s2 = false →
  messageKey s1 m1 = messageKey s2 m2 → s1 = s2 ∧ m1 = m2.
Proof.
  revert s2.
  induction s1 as [ | c1 s1 IH ]; intros [ | c2 s2 ] H1 H2 E;
    rewrite ?messageKey_nil, ?messageKey_cons in E.
  - injection E as ->. split; reflexivity.
  - injection E as <- _. apply includes_colon_cons in H2 as [Hc _]. contradiction.
  - injection E as -> _. apply includes_colon_cons in H1 as [Hc _]. contradiction.
  - injection E as -> E.
    apply includes_colon_cons in H1 as [_ H1].
    apply includes_colon_cons in H2 as [_ H2].
    destruct (IH s2 H1 H2 E) as [-> ->]. split; reflexivity.
Qed.

(** ... and when the message identifiers have none: the message is what
    comes after the last colon. *)
Lemma messageKey_inj_messages s1 m1 s2 m2 :
  includes ":" m1 = false → includes ":" m2 = false →
  messageKey s1 m1 = messageKey s2 m2 → s1 = s2 ∧ m1 = m2.
Proof.
  revert s2.
  induction s1 as [ | c1 s1 IH ]; intros [ | c2 s2 ] H1 H2 E;
    rewrite ?messageKey_nil, ?messageKey_cons in E.
  - injection E as ->. split; reflexivity.
  - injection E as _ E. rewrite E, includes_colon_key in H1. discriminate.
  - injection E as _ E. rewrite <- E, includes_colon_key in H2. discriminate.
  - injection E as -> E.
    destruct (IH s2 H1 H2 E) as [-> ->]. split; reflexivity.
Qed.

(** X21. The key is the concatenation of the two
    identifiers around a colon, so it tells two pairs apart when both session
    identifiers, or both message identifiers, are free of colons; an update
    for one of two such pairs then leaves the slot of the other as it was. *)
Theorem snapshot_slots_distinct (s1 m1 s2 m2 : string) :
  (s1, m1) ≠ (s2, m2) →
  (includes ":" s1 = false ∧ includes ":" s2 = false) ∨
  (includes ":" m1 = false ∧ includes ":" m2 = false) →
  messageKey s1 m1 ≠ messageKey s2 m2 ∧
  ∀ (now : Z) (msg : Message) (st : Plugin),
    sessionID msg = s2 → msg_id msg = m2 →
    let st' := event now (message_updated msg) st in
    messageSnapshots st' !! messageKey s1 m1 = messageSnapshots st !! messageKey s1 m1 ∧
    prevOf st' (messageKey s1 m1) = prevOf st (messageKey s1 m1) ∧
    isNewKey st' (messageKey s1 m1) = isNewKey st (messageKey s1 m1).
Proof.
  intros Hne Hfree.
  assert (Hkey : messageKey s1 m1 ≠ messageKey s2 m2).
  { intros E. apply Hne.
    destruct Hfree as [[H1 H2] | [H1 H2]].
    - destruct (messageKey_inj_sessions _ _ _ _ H1 H2 E) as [-> ->]. reflexivity.
    - destruct (messageKey_inj_messages _ _ _ _ H1 H2 E) as [-> ->]. reflexivity. }
  split; [ exact Hkey | ].
  intros now msg st Hs Hm st'.
  assert (Hslot : messageSnapshots st' !! messageKey s1 m1
                  = messageSnapshots st !! messageKey s1 m1).
  { apply event_frame. unfold touches, keyOf. rewrite Hs, Hm.
    destruct (String.eqb_spec (messageKey s2 m2) (messageKey s1 m1)) as [E | _].
    - symmetry in E. contradiction.
    - apply andb_false_r. }
  unfold prevOf, isNewKey. rewrite Hslot. repeat split.
Qed.

Lemma snapshot_slots_distinct_witness :
  messageKey "ses_1" "msg_1" ≠ messageKey "ses_2" "msg_1".
Proof.
  apply (snapshot_slots_distinct "ses_1" "msg_1" "ses_2" "msg_1").
  - discriminate.
  - left. split; reflexivity.
Defined.

(** C4 does not hold of the code.  The key is meant to name one slot per
    (session, message) pair, but the two identifiers are concatenated around
    a colon without escaping: two different pairs whose identifiers contain
    colons share a key, and the update of the second is then accounted
    against the snapshot of the first, which it overwrites. *)
Lemma snapshot_key_collision :
  let first := update "a:b" "c" "assistant" 1000 0 (ratio 0 1) "gpt-4o" in
  let second := update "a" "b:c" "assistant" 50 0 (ratio 0 1) "gpt-4o" in
  let st := event 1 (message_updated first) init in
  let st' := event 2 (message_updated second) st in
  (sessionID first, msg_id first) ≠ (sessionID second, msg_id second) ∧
  messageKey (sessionID first) (msg_id first) =
    messageKey (sessionID second) (msg_id second) ∧
  prevOf st (messageKey (sessionID second) (msg_id second)) = snapshotOf first ∧
  inputTokens (statsOf 0 st' "a") = 50 - 1000 ∧
  messageSnapshots st' !! messageKey (sessionID first) (msg_id first)
    = Some (snapshotOf second).
Proof.
  cbv zeta. split; [ discriminate | ]. split; [ reflexivity | ].
  split; [ reflexivity | ]. split; reflexivity.
Qed.

(** ** Counting messages *)

Lemma assistantUpdates_snoc done t ev :
  assistantUpdates (done ++ [(t, ev)])%list =
  (assistantUpdates done ++
     match assistantUpdate ev with Some m => [m] | None => [] end)%list.
Proof.
  unfold assistantUpdates. rewrite omap_app. reflexivity.
Qed.

Lemma assistantUpdate_Some ev m :
  assistantUpdate ev = Some m ↔ ev = message_updated m ∧ role m = "assistant".
Proof.
  destruct ev as [msg | ty]; cbn [assistantUpdate].
  - destruct (String.eqb_spec (role msg) "assistant") as [E | E]; split.
    + intros [= ->]. split; [ reflexivity | exact E ].
    + intros [[= ->] _]. reflexivity.
    + discriminate.
    + intros [[= ->] ?]. contradiction.
  - split; [ discriminate | intros [? _]; discriminate ].
Qed.

Lemma elem_of_messageIds mid sid evs :
  mid ∈ messageIds sid evs ↔
  ∃ m, m ∈ assistantUpdates evs ∧ sessionID m = sid ∧ msg_id m = mid.
Proof.
  unfold messageIds. rewrite list_elem_of_omap. split.
  - intros (m & Hm & E). exists m. split; [ exact Hm | ].
    destruct (String.eqb_spec (sessionID m) sid) as [Es | _]; [ | discriminate ].
    injection E as <-. split; [ exact Es | reflexivity ].
  - intros (m & Hm & <- & <-). exists m. split; [ exact Hm | ].
    rewrite String.eqb_refl. reflexivity.
Qed.

Lemma distinctCount_snoc ids x :
  distinctCount (ids ++ [x])%list =
  distinctCount ids + (if decide (x ∈ ids) then 0 else 1).
Proof.
  unfold distinctCount. rewrite list_to_set_app_L. cbn [list_to_set].
  destruct (decide (x ∈ ids)) as [Hin | Hout].
  - replace (list_to_set ids ∪ ({[x]} ∪ ∅) : gset string) with (list_to_set ids : gset string).
    + lia.
    + apply set_eq. intros y. rewrite !elem_of_union, elem_of_singleton, !elem_of_list_to_set.
      split; [ tauto | ]. intros [? | [-> | H]]; [ assumption | assumption | ].
      exfalso. exact (not_elem_of_empty (C:=gset string) _ H).
  - rewrite size_union.
    + rewrite union_empty_r_L, size_singleton. lia.
    + intros y Hy1 Hy2. apply elem_of_list_to_set in Hy1.
      rewrite union_empty_r_L in Hy2. apply elem_of_singleton in Hy2. subst y.
      contradiction.
Qed.

Lemma isNewKey_spec st key :
  isNewKey st key = false ↔ is_Some (messageSnapshots st !! key).
Proof.
  unfold isNewKey. destruct (messageSnapshots st !! key); split;
    try reflexivity; try discriminate; eauto.
  intros [? ?]. discriminate.
Qed.

Lemma statsOf_other now now' msg st sid :
  sessionID msg ≠ sid →
  statsOf now' (event now (message_updated msg) st) sid = statsOf now' st sid.
Proof.
  intros Hne. unfold event.
  destruct (negb (String.eqb (role msg) "assistant")); [ reflexivity | ].
  unfold statsOf. cbn [sessions]. rewrite lookup_insert_ne by exact Hne. reflexivity.
Qed.

Lemma messageIds_snoc sid done t ev :
  messageIds sid (done ++ [(t, ev)])%list =
  (messageIds sid done ++
     match assistantUpdate ev with
     | Some m => if String.eqb (sessionID m) sid then [msg_id m] else []
     | None => []
     end)%list.
Proof.
  unfold messageIds. rewrite assistantUpdates_snoc, omap_app.
  destruct (assistantUpdate ev) as [m | ]; [ | reflexivity ].
  f_equal. cbn. destruct (String.eqb (sessionID m) sid); reflexivity.
Qed.

Lemma injectiveOn_prefix ups more :
  injectiveOn (ups ++ more)%list → injectiveOn ups.
Proof.
  intros H m m' Hm Hm'. apply H; apply elem_of_app; left; assumption.
Qed.

Lemma consistent_init : consistent [] init.
Proof.
  split.
  - intros key. cbn. rewrite lookup_empty. split.
    + intros [? ?]. discriminate.
    + intros (m & Hm & _). inversion Hm.
  - intros now sid. reflexivity.
Qed.

(** One more event keeps the maps consistent with the stream handled so far,
    as long as the keys tell the pairs of that stream apart. *)
Lemma consistent_step done st t ev :
  consistent done st →
  injectiveOn (assistantUpdates (done ++ [(t, ev)])%list) →
  consistent (done ++ [(t, ev)])%list (event t ev st).
Proof.
  intros [Hslots Hcount] Hinj.
  destruct (assistantUpdate ev) as [msg | ] eqn:Hev.
  - apply assistantUpdate_Some in Hev as Hev'. destruct Hev' as [-> Hrole].
    rewrite assistantUpdates_snoc, Hev in Hinj.
    split.
    + intros key. rewrite assistantUpdates_snoc, Hev.
      rewrite event_assistant by exact Hrole. cbv zeta. cbn [messageSnapshots].
      fold (keyOf msg). split.
      * intros Hsome. destruct (decide (keyOf msg = key)) as [E | E].
        -- exists msg. split; [ apply elem_of_app; right; constructor | exact E ].
        -- rewrite lookup_insert_ne in Hsome by exact E.
           apply Hslots in Hsome as (m & Hm & Hk).
           exists m. split; [ apply elem_of_app; left; exact Hm | exact Hk ].
      * intros (m & Hm & Hk). apply elem_of_app in Hm as [Hm | Hm].
        -- destruct (decide (keyOf msg = key)) as [E | E].
           ++ rewrite E, lookup_insert_eq. eauto.
           ++ rewrite lookup_insert_ne by exact E. apply Hslots. eauto.
        -- apply list_elem_of_singleton in Hm. subst m. rewrite Hk, lookup_insert_eq. eauto.
    + intros now sid. rewrite messageIds_snoc, Hev.
      destruct (String.eqb_spec (sessionID msg) sid) as [Es | Es].
      * subst sid. rewrite event_stats by exact Hrole.
        rewrite distinctCount_snoc. unfold accumulate. cbn [messages].
        rewrite (Hcount t (sessionID msg)). fold (keyOf msg).
        destruct (decide (msg_id msg ∈ messageIds (sessionID msg) done)) as [Hin | Hout].
        -- assert (Hold : isNewKey st (keyOf msg) = false).
           { apply isNewKey_spec, Hslots.
             apply elem_of_messageIds in Hin as (m & Hm & Hs & Hi).
             exists m. split; [ exact Hm | ]. unfold keyOf. rewrite Hs, Hi. reflexivity. }
           rewrite Hold. lia.
        -- destruct (isNewKey st (keyOf msg)) eqn:Hnew; [ reflexivity | ].
           exfalso. apply Hout.
           apply isNewKey_spec, Hslots in Hnew as (m & Hm & Hk).
           destruct (Hinj m msg) as [Hs Hi].
           { apply elem_of_app; left; exact Hm. }
           { apply elem_of_app; right; constructor. }
           { exact Hk. }
           apply elem_of_messageIds. exists m. auto.
      * rewrite app_nil_r, statsOf_other by exact Es. apply Hcount.
  - assert (Hsame : event t ev st = st).
    { destruct ev as [msg | ty]; [ | reflexivity ].
      apply event_skip. intros Hrole.
      cbn [assistantUpdate] in Hev. rewrite Hrole in Hev. discriminate. }
    rewrite Hsame. unfold consistent.
    rewrite assistantUpdates_snoc, Hev, app_nil_r.
    split; [ exact Hslots | ].
    intros now sid. rewrite messageIds_snoc, Hev, app_nil_r. apply Hcount.
Qed.

Lemma consistent_run evs : ∀ done st,
  consistent done st →
  injectiveOn (assistantUpdates (done ++ evs)%list) →
  consistent (done ++ evs)%list (run evs st).
Proof.
  induction evs as [ | [t ev] evs IH ]; intros done st Hc Hinj.
  - rewrite app_nil_r. exact Hc.
  - cbn [run].
    replace (done ++ (t, ev) :: evs)%list with ((done ++ [(t, ev)]) ++ evs)%list in *
      by (rewrite <- app_assoc; reflexivity).
    apply IH; [ | exact Hinj ].
    apply consistent_step; [ exact Hc | ].
    unfold assistantUpdates in *. rewrite omap_app in Hinj.
    exact (injectiveOn_prefix _ _ Hinj).
Qed.

Lemma collisionFree_injectiveOn evs :
  collisionFree evs = true → injectiveOn (assistantUpdates evs).
Proof.
  unfold collisionFree. intros H m m' Hm Hm' Hk.
  rewrite forallb_forall in H. apply list_elem_of_In in Hm, Hm'.
  specialize (H m Hm). rewrite forallb_forall in H. specialize (H m' Hm').
  unfold sameSlot, samePair in H.
  rewrite Hk, String.eqb_refl in H. cbn [implb] in H.
  apply andb_prop in H as [Hs Hi].
  split; apply String.eqb_eq; assumption.
Qed.

(** Slots are never removed. *)
Lemma event_keeps_slot now ev st key :
  is_Some (messageSnapshots st !! key) →
  is_Some (messageSnapshots (event now ev st) !! key).
Proof.
  intros Hsome. destruct (touches key ev) eqn:Ht.
  - destruct ev as [msg | ty]; [ | discriminate ].
    cbn [touches] in Ht. unfold keyOf in Ht. apply andb_prop in Ht as [Hrole Hkey].
    apply String.eqb_eq in Hrole, Hkey. subst key.
    rewrite event_snapshot by exact Hrole. eauto.
  - rewrite event_frame by exact Ht. exact Hsome.
Qed.

Lemma run_keeps_slot evs : ∀ st key,
  is_Some (messageSnapshots st !! key) →
  is_Some (messageSnapshots (run evs st) !! key).
Proof.
  induction evs as [ | [t ev] evs IH ]; intros st key Hsome; [ exact Hsome | ].
  cbn [run]. apply IH, event_keeps_slot, Hsome.
Qed.

Lemma colon_free_collisionFree evs :
  forallb (fun m => negb (includes ":" (sessionID m))) (assistantUpdates evs) = true →
  collisionFree evs = true.
Proof.
  intros Hfree. rewrite forallb_forall in Hfree. unfold collisionFree.
  apply forallb_forall. intros m Hm. apply forallb_forall. intros m' Hm'.
  unfold sameSlot, samePair, keyOf.
  destruct (String.eqb_spec (messageKey (sessionID m) (msg_id m))
                            (messageKey (sessionID m') (msg_id m'))) as [E | _];
    [ | reflexivity ].
  cbn [implb].
  apply Hfree, negb_true_iff in Hm. apply Hfree, negb_true_iff in Hm'.
  destruct (messageKey_inj_sessions _ _ _ _ Hm Hm' E) as [-> ->].
  rewrite !String.eqb_refl. reflexivity.
Qed.

(** X22. An assistant update increments the [messages]
    counter of its session exactly when its snapshot slot is still empty, and
    the slot it fills is never emptied, so no later update stored under the
    same key increments again.  Hence, over a whole stream handled from the
    initial state, the counter of every session equals the number of distinct
    message identifiers the session received assistant updates for, provided
    the keys tell the (session, message) pairs of the stream apart -- which
    they do when no session identifier contains a colon. *)
Theorem message_count_exact :
  (∀ (now : Z) (msg : Message) (st : Plugin),
      role msg = "assistant" →
      let st' := event now (message_updated msg) st in
      messages (statsOf now st' (sessionID msg)) =
        (if isNewKey st (keyOf msg)
         then messages (statsOf now st (sessionID msg)) + 1
         else messages (statsOf now st (sessionID msg))) ∧
      ∀ evs, isNewKey (run evs st') (keyOf msg) = false) ∧
  (∀ (evs : list (Z * Event)),
      collisionFree evs = true →
      ∀ (now : Z) (sid : string),
        messages (statsOf now (run evs init) sid) = distinctCount (messageIds sid evs)) ∧
  (∀ (evs : list (Z * Event)),
      forallb (fun m => negb (includes ":" (sessionID m))) (assistantUpdates evs) = true →
      collisionFree evs = true).
Proof.
  split; [ | split ].
  - intros now msg st Hrole st'. subst st'. split.
    + rewrite event_stats by exact Hrole. reflexivity.
    + intros evs. apply isNewKey_spec, run_keeps_slot.
      unfold keyOf. rewrite event_snapshot by exact Hrole. eauto.
  - intros evs Hfree now sid.
    apply (consistent_run evs [] init consistent_init).
    apply collisionFree_injectiveOn, Hfree.
  - apply colon_free_collisionFree.
Qed.

Lemma message_count_exact_witness :
  let up sid mid n := message_updated (update sid mid "assistant" n 0 (ratio 0 1) "gpt-4o") in
  let evs := [ (1, up "ses_1" "msg_1" 0); (2, up "ses_1" "msg_1" 50);
               (3, up "ses_2" "msg_1" 7); (4, up "ses_1" "msg_2" 10);
               (5, up "ses_1" "msg_1" 120); (6, up "ses_1" "msg_2" 30) ] in
  messages (statsOf 0 (run evs init) "ses_1") = 2.
Proof.
  cbv zeta.
  refine (eq_trans (proj1 (proj2 message_count_exact) _ _ 0 "ses_1") _).
  - apply (proj2 (proj2 message_count_exact)). reflexivity.
  - vm_compute. reflexivity.
Defined.

(** C3 does not hold of the code.  The session "a" receives one assistant
    update, for one message, yet its counter stays at 0: the slot of that
    message, found under the concatenation of the two identifiers, was filled
    by the message "c" of the session "a:b".  The tool then answers that the
    session has no data. *)
Lemma message_count_collision :
  let evs := [ (1, message_updated (update "a:b" "c" "assistant" 10 0 (ratio 0 1) "gpt-4o"));
               (2, message_updated (update "a" "b:c" "assistant" 10 0 (ratio 0 1) "gpt-4o")) ] in
  messageIds "a" evs = ["b:c"] ∧
  distinctCount (messageIds "a" evs) = 1 ∧
  messages (statsOf 0 (run evs init) "a") = 0 ∧
  co2_report (run evs init) "a" = no_data.
Proof. cbv zeta. repeat split; vm_compute; reflexivity. Qed.

(** ** Classification and the dominant tier *)

Lemma classifiesAs_spec t m : classifiesAs t m = true ↔ classifyModel m = tier t.
Proof.
  unfold classifiesAs.
  destruct (classifyModel m) as [[ | | ] | name], t; split;
    try reflexivity; try discriminate.
Qed.

Lemma existsb_classifiesAs t ms :
  existsb (classifiesAs t) ms = true ↔ ∃ m, m ∈ ms ∧ classifyModel m = tier t.
Proof.
  rewrite existsb_exists. split; intros (m & Hm & Hc); exists m.
  - split; [ apply list_elem_of_In, Hm | apply classifiesAs_spec, Hc ].
  - split; [ apply list_elem_of_In, Hm | apply classifiesAs_spec, Hc ].
Qed.

Lemma existsb_classifiesAs_false t ms :
  (∀ m, m ∈ ms → classifyModel m ≠ tier t) → existsb (classifiesAs t) ms = false.
Proof.
  intros Hno. destruct (existsb (classifiesAs t) ms) eqn:E; [ | reflexivity ].
  apply existsb_classifiesAs in E as (m & Hm & Hc). destruct (Hno m Hm Hc).
Qed.

(** The loop, whatever class it is entered with. *)
Lemma dominantLoop_spec ms : ∀ d,
  dominantLoop ms d =
  if existsb (classifiesAs large) ms then large
  else if existsb (classifiesAs medium) ms then medium
  else d.
Proof.
  induction ms as [ | m ms IH ]; intros d; [ reflexivity | ].
  cbn [dominantLoop existsb]. unfold classifiesAs at 1 3.
  destruct (classifyModel m) as [[ | | ] | name]; cbn [orb]; rewrite ?IH;
    try reflexivity.
  all: destruct (existsb (classifiesAs large) ms);
    destruct (existsb (classifiesAs medium) ms); reflexivity.
Qed.

(** The loop of [computeCO2] computes the highest tier present. *)
Lemma dominantLoop_highestTier ms : dominantLoop ms small = highestTier ms.
Proof. apply dominantLoop_spec. Qed.

(** X24. The estimate multiplies the token total -- input, output and reasoning
    tokens -- by the rate of the class the loop ends with, and that class
    follows the precedence large > medium >
    small over the classifications of the session's models: large as soon as
    one model classifies as large, whatever the others; medium when none is
    large and one is medium; small when all classify as small, and only when
    none classifies as large or medium, that is, only when small is the one
    tier any model of the session classifies as. *)
Theorem dominant_tier_precedence (env : option string) (stats : SessionStats) :
  let ms := models stats in
  let dominantClass := dominantLoop ms small in
  totalTokens (computeCO2 env stats) =
    inputTokens stats + outputTokens stats + reasoningTokens stats ∧
  energyKwh (computeCO2 env stats) =
    mul (ofZ (inputTokens stats + outputTokens stats + reasoningTokens stats))
        (ENERGY_PER_TOKEN_KWH dominantClass) ∧
  dominantClass = highestTier ms ∧
  ((∃ m, m ∈ ms ∧ classifyModel m = tier large) → dominantClass = large) ∧
  ((∀ m, m ∈ ms → classifyModel m ≠ tier large) →
   (∃ m, m ∈ ms ∧ classifyModel m = tier medium) → dominantClass = medium) ∧
  ((∀ m, m ∈ ms → classifyModel m = tier small) → dominantClass = small) ∧
  (dominantClass = small →
   ∀ m, m ∈ ms →
     classifyModel m ≠ tier large ∧ classifyModel m ≠ tier medium ∧
     ∀ t, classifyModel m = tier t → t = small).
Proof.
  intros ms dominantClass. subst dominantClass.
  split; [ reflexivity | ]. split; [ reflexivity | ].
  split; [ apply dominantLoop_highestTier | ].
  rewrite dominantLoop_spec. split; [ | split; [ | split ] ].
  - intros Hlarge. apply existsb_classifiesAs in Hlarge. rewrite Hlarge. reflexivity.
  - intros Hno Hmedium.
    rewrite (existsb_classifiesAs_false large ms Hno).
    apply existsb_classifiesAs in Hmedium. rewrite Hmedium. reflexivity.
  - intros Hall.
    rewrite !existsb_classifiesAs_false; [ reflexivity | | ];
      intros m Hm; rewrite (Hall m Hm); discriminate.
  - intros E m Hm.
    destruct (existsb (classifiesAs large) ms) eqn:HL; [ discriminate | ].
    destruct (existsb (classifiesAs medium) ms) eqn:HM; [ discriminate | ].
    assert (Hl : classifyModel m ≠ tier large).
    { intros Hc. rewrite (proj2 (existsb_classifiesAs large ms)) in HL by eauto.
      discriminate. }
    assert (Hm' : classifyModel m ≠ tier medium).
    { intros Hc. rewrite (proj2 (existsb_classifiesAs medium ms)) in HM by eauto.
      discriminate. }
    split; [ exact Hl | ]. split; [ exact Hm' | ].
    intros [ | | ] Hc; [ reflexivity | contradiction | contradiction ].
Qed.

Lemma dominant_tier_precedence_witness :
  dominantLoop ["claude-haiku-4-5"; "gpt-4o"; "claude-opus-4"; "gemini-2.5-flash"] small
  = large.
Proof.
  refine (proj1 (proj2 (proj2 (proj2 (dominant_tier_precedence None
    {| inputTokens := 1000; outputTokens := 500; reasoningTokens := 0;
       cacheReadTokens := 0; cacheWriteTokens := 0; cost := ratio 0 1;
       messages := 4;
       models := ["claude-haiku-4-5"; "gpt-4o"; "claude-opus-4"; "gemini-2.5-flash"];
       providers := ["anthropic"; "openai"; "google"];
       firstSeen := 0 |})))) _).
  exists "claude-opus-4". split; [ | reflexivity ].
  cbn [models]. apply list_elem_of_In. cbn. tauto.
Defined.

(** C7 does not hold of the code.  For the model identifier "constructor"
    the classifier returns no tier at all (the member the table inherits from
    [Object.prototype]); the loop compares the result with "large" and
    "medium" only, so the session is estimated at the small rate although
    its one model does not classify as small -- where a session whose one
    model is any other unknown identifier is estimated at the medium rate. *)
Theorem dominant_tier_inherited_property :
  let session ms :=
    {| inputTokens := 1000; outputTokens := 500; reasoningTokens := 0;
       cacheReadTokens := 0; cacheWriteTokens := 0; cost := ratio 0 1;
       messages := 1; models := ms; providers := ["local"]; firstSeen := 0 |} in
  classifyModel "constructor" ≠ tier small ∧
  (∀ t, classifyModel "constructor" ≠ tier t) ∧
  dominantLoop (models (session ["constructor"])) small = small ∧
  energyKwh (computeCO2 None (session ["constructor"]))
    = mul (ofZ 1500) (ENERGY_PER_TOKEN_KWH small) ∧
  classifyModel "my-local-model" = tier medium ∧
  energyKwh (computeCO2 None (session ["my-local-model"]))
    = mul (ofZ 1500) (ENERGY_PER_TOKEN_KWH medium).
Proof.
  cbv zeta. split; [ discriminate | ]. split; [ intros t; discriminate | ].
  repeat split.
Qed.


(** Off the names that [Object.prototype] defines, the classifier goes
    through its three steps and always ends on a tier: the table entry when
    there is one, else small on a small marker, else large on "opus" or "o3"
    (the test for "mini" on that line cannot fail any more), else medium. *)
Lemma classifyModel_steps (modelID : string) :
  existsb (String.eqb modelID) Object_prototype = false →
  classifyModel modelID =
  tier match MODEL_SIZE !! modelID with
       | Some t => t
       | None =>
           let id := toLowerCase modelID in
           if hasSmallMarker id then small
           else if hasLargeMarker id then large
           else medium
       end.
Proof.
  intros Hproto. unfold classifyModel, MODEL_SIZE_get. rewrite Hproto.
  destruct (MODEL_SIZE !! modelID) as [t | ]; [ reflexivity | ].
  cbv zeta. unfold hasSmallMarker, hasLargeMarker.
  destruct (includes "haiku" (toLowerCase modelID)); [ reflexivity | ].
  destruct (includes "mini" (toLowerCase modelID)); [ reflexivity | ].
  cbn [orb negb]. rewrite andb_true_r.
  destruct (includes "nano" (toLowerCase modelID) || includes "flash" (toLowerCase modelID));
    [ reflexivity | ].
  destruct (includes "opus" (toLowerCase modelID) || includes "o3" (toLowerCase modelID));
    reflexivity.
Qed.

(** C8 does not hold of the code.  [MODEL_SIZE] is an object literal, so
    reading it at one of the names it inherits from [Object.prototype] yields
    that (truthy) member, and the first line of [classifyModel] returns it:
    the result is none of the three tiers.  The loop of [computeCO2] then
    skips it, so that such a model counts as small where any other unknown
    identifier counts as medium. *)
Theorem classifyModel_inherited_property :
  classifyModel "constructor" = inherited "constructor" ∧
  (∀ t, classifyModel "constructor" ≠ tier t) ∧
  Forall (fun name => classifyModel name = inherited name) Object_prototype ∧
  dominantLoop ["constructor"] small = small ∧
  classifyModel "my-local-model" = tier medium ∧
  dominantLoop ["my-local-model"] small = medium.
Proof.
  split; [ reflexivity | ]. split; [ intros t; discriminate | ].
  split; [ repeat constructor | ]. repeat split.
Qed.

(** ** The eco grade *)

Lemma le_trans (x y z : number) : le x y = true → le y z = true → le x z = true.
Proof.
  destruct x as [ | [ | ] | p ], y as [ | [ | ] | q ], z as [ | [ | ] | r ];
    cbn [le]; try reflexivity; try discriminate.
  rewrite !Qle_bool_iff. apply Qle_trans.
Qed.

Lemma le_not_NaN (x y : number) : le x y = true → isNaN x = false ∧ isNaN y = false.
Proof. destruct x as [ | [ | ] | p ], y as [ | [ | ] | q ]; cbn; intuition discriminate. Qed.

Lemma le_Inf (x : number) : isNaN x = false → le x (Inf false) = true.
Proof. destruct x as [ | [ | ] | p ]; cbn; intuition discriminate. Qed.

Lemma gt_le (x y : number) : gt x y = true → le y x = true.
Proof.
  destruct x as [ | [ | ] | p ], y as [ | [ | ] | q ]; cbn [gt le];
    try reflexivity; try discriminate.
  rewrite negb_true_iff. intros H. apply Qle_bool_iff.
  destruct (Qlt_le_dec q p) as [Hlt | Hle].
  - apply Qlt_le_weak, Hlt.
  - apply Qle_bool_iff in Hle. congruence.
Qed.

(** The per-message figure is a number as soon as the CO2 figure is one. *)
Lemma perMessage_not_NaN co2 n : isNaN co2 = false → isNaN (perMessage co2 n) = false.
Proof.
  intros H. unfold perMessage. destruct (0 <? n) eqn:Hn; [ | reflexivity ].
  apply Z.ltb_lt in Hn.
  destruct co2 as [ | s | p ]; [ discriminate | reflexivity | ].
  unfold ofZ, div.
  assert (Hz : isZero (Q2Qc (inject_Z n)) = false).
  { unfold isZero. apply not_true_is_false. intros E. apply Qeq_bool_iff in E.
    cbn [this Q2Qc] in E. rewrite Qred_correct in E.
    unfold Qeq in E. cbn in E. lia. }
  rewrite Hz. reflexivity.
Qed.

(** What the loop returns: the grade of the first entry whose bound is not
    below the figure. *)
Lemma firstWithin_first p ts g :
  firstWithin p ts = Some g →
  ∃ (i : nat) (t : Threshold),
    ts !! i = Some t ∧ g = threshold_grade t ∧ le p (maxPerMsg t) = true ∧
    ∀ (j : nat) (t' : Threshold),
      (j < i)%nat → ts !! j = Some t' → le p (maxPerMsg t') = false.
Proof.
  revert g. induction ts as [ | t ts IH ]; intros g; [ discriminate | ].
  cbn [firstWithin]. destruct (le p (maxPerMsg t)) eqn:Hle.
  - intros [= <-]. exists 0%nat, t. repeat split; [ exact Hle | ].
    intros j t' Hj. lia.
  - intros Hg. destruct (IH g Hg) as (i & t0 & Hi & -> & Hle0 & Hbefore).
    exists (S i), t0. repeat split; [ exact Hi | exact Hle0 | ].
    intros [ | j ] t' Hj Hlook.
    + injection Hlook as <-. exact Hle.
    + apply (Hbefore j t'); [ lia | exact Hlook ].
Qed.

Lemma firstWithin_some p ts t :
  t ∈ ts → le p (maxPerMsg t) = true → ∃ g, firstWithin p ts = Some g.
Proof.
  induction ts as [ | t0 ts IH ]; intros Hin Hle; [ inversion Hin | ].
  cbn [firstWithin]. destruct (le p (maxPerMsg t0)) eqn:H0; [ eauto | ].
  apply elem_of_cons in Hin as [-> | Hin]; [ congruence | ].
  apply IH; assumption.
Qed.

Lemma firstWithin_ladder p :
  isNaN p = false → ∃ g, firstWithin p ECO_THRESHOLDS = Some g.
Proof.
  intros H.
  apply (firstWithin_some p ECO_THRESHOLDS (List.last ECO_THRESHOLDS noThreshold)).
  - apply list_elem_of_In. cbn. tauto.
  - apply le_Inf, H.
Qed.

(** Along a ladder whose levels ascend, a larger figure never gets a grade
    of a lower level. *)
Lemma firstWithin_mono ts :
  StronglySorted (fun t t' => level (threshold_grade t) ≤ level (threshold_grade t')) ts →
  ∀ p p' g g',
    le p p' = true →
    firstWithin p ts = Some g → firstWithin p' ts = Some g' → noWorse g g'.
Proof.
  unfold noWorse.
  induction 1 as [ | t ts Hsorted IH Hhead ]; intros p p' g g' Hpp; [ discriminate | ].
  cbn [firstWithin].
  destruct (le p (maxPerMsg t)) eqn:Hp; destruct (le p' (maxPerMsg t)) eqn:Hp'.
  - intros [= <-] [= <-]. lia.
  - intros [= <-] Hg'.
    destruct (firstWithin_first _ _ _ Hg') as (i & t' & Hi & -> & _).
    rewrite List.Forall_forall in Hhead. apply Hhead.
    apply list_elem_of_In, list_elem_of_lookup. eauto.
  - rewrite (le_trans _ _ _ Hpp Hp') in Hp. discriminate.
  - apply IH, Hpp.
Qed.

Lemma ECO_THRESHOLDS_ascend :
  StronglySorted (fun t t' => level (threshold_grade t) ≤ level (threshold_grade t'))
    ECO_THRESHOLDS.
Proof. repeat (constructor; [ | repeat constructor; cbn; lia ]). constructor. Qed.

(** C6. The grader always returns the grade of an entry of the fixed ladder.
    For a CO2 figure that is a non-negative number and a non-negative message
    count, with [perMessage] the figure per message (0 without messages),
    that entry is the first one of the ladder whose bound is not below
    [perMessage].  And the grade never improves as [perMessage] grows. *)
Theorem grade_total_and_monotone :
  ladder = [ (Fin (ratio 1 10), "A+"); (Fin (ratio 3 10), "A"); (Fin (ratio 8 10), "B");
             (Fin (ratio 15 10), "B-"); (Fin (ratio 3 1), "C"); (Fin (ratio 6 1), "D");
             (Inf false, "F") ] ∧
  (∀ (co2 : number) (n : Z),
      ∃ t, t ∈ ECO_THRESHOLDS ∧ getEcoGrade co2 n = threshold_grade t) ∧
  (∀ (co2 : number) (n : Z),
      le (ofZ 0) co2 = true → 0 ≤ n →
      perMessage co2 n = (if 0 <? n then div co2 (ofZ n) else ofZ 0) ∧
      ∃ (i : nat) (t : Threshold),
        ECO_THRESHOLDS !! i = Some t ∧
        getEcoGrade co2 n = threshold_grade t ∧
        le (perMessage co2 n) (maxPerMsg t) = true ∧
        ∀ (j : nat) (t' : Threshold),
          (j < i)%nat → ECO_THRESHOLDS !! j = Some t' →
          le (perMessage co2 n) (maxPerMsg t') = false) ∧
  (∀ (co2 co2' : number) (n n' : Z),
      le (perMessage co2 n) (perMessage co2' n') = true →
      noWorse (getEcoGrade co2 n) (getEcoGrade co2' n')) ∧
  (∀ (co2 co2' : number) (n n' : Z),
      gt (perMessage co2' n') (perMessage co2 n) = true →
      ¬ level (getEcoGrade co2' n') < level (getEcoGrade co2 n)).
Proof.
  assert (Hmono : ∀ (co2 co2' : number) (n n' : Z),
            le (perMessage co2 n) (perMessage co2' n') = true →
            noWorse (getEcoGrade co2 n) (getEcoGrade co2' n')).
  { intros co2 co2' n n' Hle. unfold getEcoGrade.
    destruct (le_not_NaN _ _ Hle) as [Hp Hp'].
    destruct (firstWithin_ladder _ Hp) as [g Hg].
    destruct (firstWithin_ladder _ Hp') as [g' Hg'].
    rewrite Hg, Hg'.
    exact (firstWithin_mono _ ECO_THRESHOLDS_ascend _ _ _ _ Hle Hg Hg'). }
  split; [ reflexivity | ]. split; [ | split; [ | split ] ].
  - intros co2 n. unfold getEcoGrade.
    destruct (firstWithin (perMessage co2 n) ECO_THRESHOLDS) as [g | ] eqn:Hg.
    + destruct (firstWithin_first _ _ _ Hg) as (i & t & Hi & -> & _).
      exists t. split; [ | reflexivity ]. apply list_elem_of_lookup. eauto.
    + eexists. split; [ | reflexivity ]. apply list_elem_of_In. cbn. tauto.
  - intros co2 n Hco2 _. split; [ reflexivity | ].
    apply le_not_NaN in Hco2 as [_ Hco2].
    destruct (firstWithin_ladder _ (perMessage_not_NaN co2 n Hco2)) as [g Hg].
    unfold getEcoGrade. rewrite Hg.
    exact (firstWithin_first _ _ _ Hg).
  - exact Hmono.
  - intros co2 co2' n n' Hgt. apply gt_le, Hmono in Hgt. unfold noWorse in Hgt. lia.
Qed.

Lemma grade_total_and_monotone_witness :
  (∃ (i : nat) (t : Threshold),
      ECO_THRESHOLDS !! i = Some t ∧
      getEcoGrade (Fin (ratio 18 100)) 1 = threshold_grade t ∧
      le (perMessage (Fin (ratio 18 100)) 1) (maxPerMsg t) = true ∧
      ∀ (j : nat) (t' : Threshold),
        (j < i)%nat → ECO_THRESHOLDS !! j = Some t' →
        le (perMessage (Fin (ratio 18 100)) 1) (maxPerMsg t') = false) ∧
  noWorse (getEcoGrade (Fin (ratio 18 100)) 1) (getEcoGrade (Fin (ratio 7 1)) 2).
Proof.
  split.
  - apply (proj1 (proj2 (proj2 grade_total_and_monotone)) (Fin (ratio 18 100)) 1);
      [ reflexivity | lia ].
  - apply (proj1 (proj2 (proj2 (proj2 grade_total_and_monotone)))). reflexivity.
Defined.

(** The scenario of the specification: 0.18 g over one message is an A. *)
Example grade_of_scenario : grade (getEcoGrade (Fin (ratio 18 100)) 1) = "A".
Proof. reflexivity. Qed.

(** ** Grid intensity *)

Lemma gt_zero (q : Qc) : gt (Fin q) (ofZ 0) = true ↔ (0 < q)%Qc.
Proof.
  unfold gt, ofZ. rewrite negb_true_iff. split.
  - intros H. apply Qclt_nge. intros Hle. apply Qle_bool_iff in Hle.
    exact (eq_true_false_abs _ Hle H).
  - intros H. apply not_true_is_false. intros Hle. apply Qle_bool_iff in Hle.
    apply Qclt_nge in H. apply H. exact Hle.
Qed.

Lemma getGridIntensity_parsed (s : string) :
  getGridIntensity (Some s) =
  if negb (isNaN (parseFloat s)) && gt (parseFloat s) (ofZ 0)
  then parseFloat s else DEFAULT_GRID_INTENSITY.
Proof. destruct s; reflexivity. Qed.

(** C5, as the code has it.  The override is used exactly when what
    [parseFloat] reads in it is not NaN and is greater than 0 -- a positive
    finite number, or positive infinity -- and the default 400 is used in
    every other case: no override, nothing numeric at the head of the string,
    a value that is not positive, negative infinity.  With the override "50"
    the CO2 figure is the energy times 50; with "-5", "abc" or no override
    it is the energy times 400. *)
Theorem grid_intensity_override :
  (∀ (s : string) (q : Qc),
      parseFloat s = Fin q → (0 < q)%Qc → getGridIntensity (Some s) = Fin q) ∧
  (∀ (s : string),
      parseFloat s = Inf false → getGridIntensity (Some s) = Inf false) ∧
  (∀ (s : string),
      parseFloat s = NaN ∨ parseFloat s = Inf true ∨
      (∃ q, parseFloat s = Fin q ∧ (q ≤ 0)%Qc) →
      getGridIntensity (Some s) = ofZ 400) ∧
  getGridIntensity None = ofZ 400 ∧
  (∀ (stats : SessionStats),
      co2Grams (computeCO2 (Some "50") stats)
        = mul (energyKwh (computeCO2 (Some "50") stats)) (ofZ 50) ∧
      Forall (fun env =>
                co2Grams (computeCO2 env stats)
                  = mul (energyKwh (computeCO2 env stats)) (ofZ 400))
             [Some "-5"; Some "abc"; None]).
Proof.
  split; [ | split; [ | split; [ | split ] ] ].
  - intros s q Hparse Hpos. rewrite getGridIntensity_parsed, Hparse.
    cbn [isNaN negb andb]. rewrite (proj2 (gt_zero q) Hpos). reflexivity.
  - intros s Hparse. rewrite getGridIntensity_parsed, Hparse. reflexivity.
  - intros s [Hparse | [Hparse | (q & Hparse & Hq)]];
      rewrite getGridIntensity_parsed, Hparse; try reflexivity.
    cbn [isNaN negb andb].
    destruct (gt (Fin q) (ofZ 0)) eqn:Hgt; [ | reflexivity ].
    apply gt_zero, Qclt_nge in Hgt. contradiction.
  - reflexivity.
  - intros stats. split; [ reflexivity | repeat constructor ].
Qed.

Lemma grid_intensity_override_witness :
  getGridIntensity (Some "50") = ofZ 50 ∧
  getGridIntensity (Some "Infinity") = Inf false ∧
  getGridIntensity (Some "-5") = ofZ 400.
Proof.
  split; [ | split ].
  - apply (proj1 grid_intensity_override "50"); reflexivity.
  - apply (proj1 (proj2 grid_intensity_override) "Infinity"). reflexivity.
  - apply (proj1 (proj2 (proj2 grid_intensity_override)) "-5").
    right; right. exists (ratio (-5) 1). split; [ reflexivity | discriminate ].
Defined.

(** The claim C5 as the specification states it does not hold: the override
    "Infinity" does not parse as a finite number, and yet it is used instead
    of the default 400 (the guard tests for NaN and for the sign only). *)
Lemma grid_intensity_infinite :
  parseFloat "Infinity" = Inf false ∧
  getGridIntensity (Some "Infinity") = Inf false ∧
  getGridIntensity (Some "Infinity") ≠ DEFAULT_GRID_INTENSITY.
Proof. repeat split. discriminate. Qed.

(** * Further properties of the plugin *)

(** ** Streams of events *)

Lemma run_app evs1 evs2 st : run (evs1 ++ evs2)%list st = run evs2 (run evs1 st).
Proof.
  revert st. induction evs1 as [ | [t ev] evs1 IH ]; intros st; [ reflexivity | ].
  cbn [app run]. apply IH.
Qed.

Lemma isUpdateOf_Some sid ev :
  isUpdateOf sid ev = true ↔
  ∃ m, ev = message_updated m ∧ role m = "assistant" ∧ sessionID m = sid.
Proof.
  unfold isUpdateOf. destruct (assistantUpdate ev) as [m | ] eqn:E.
  - apply assistantUpdate_Some in E as [-> Hrole]. rewrite String.eqb_eq. split.
    + intros Hs. exists m. auto.
    + intros (m' & [= <-] & _ & Hs). exact Hs.
  - split; [ discriminate | ]. intros (m & -> & Hrole & _).
    cbn [assistantUpdate] in E. rewrite Hrole in E. discriminate.
Qed.

Lemma event_session_other t ev st sid :
  isUpdateOf sid ev = false → sessions (event t ev st) !! sid = sessions st !! sid.
Proof.
  intros H. destruct ev as [msg | ty]; [ | reflexivity ].
  unfold isUpdateOf in H. cbn [assistantUpdate] in H. unfold event.
  destruct (String.eqb (role msg) "assistant"); [ | reflexivity ].
  cbn [negb sessions]. apply String.eqb_neq in H.
  apply lookup_insert_ne. exact H.
Qed.

Lemma event_session_update t msg st :
  role msg = "assistant" →
  sessions (event t (message_updated msg) st) !! sessionID msg =
  Some (accumulate (statsOf t st (sessionID msg)) (prevOf st (keyOf msg))
          (isNewKey st (keyOf msg)) msg).
Proof.
  intros Hrole. rewrite event_assistant by exact Hrole.
  cbv zeta. cbn [sessions]. apply lookup_insert_eq.
Qed.

(** X1. Events that are not assistant updates of a session -- updates of
    other sessions, updates with another role, other kinds of events -- never
    change the record of that session, and never create it. *)
Theorem session_record_frame (evs : list (Z * Event)) (st : Plugin) (sid : string) :
  forallb (fun e => negb (isUpdateOf sid (snd e))) evs = true →
  sessions (run evs st) !! sid = sessions st !! sid.
Proof.
  revert st. induction evs as [ | [t ev] evs IH ]; intros st H; [ reflexivity | ].
  cbn [forallb snd] in H. apply andb_prop in H as [Hev Hrest].
  cbn [run]. rewrite IH by exact Hrest.
  apply event_session_other, negb_true_iff, Hev.
Qed.

Lemma session_record_frame_witness :
  let evs := [ (1, message_updated (update "ses_2" "msg_1" "assistant" 10 5 (ratio 1 100) "gpt-4o"));
               (2, message_updated (update "ses_1" "msg_9" "user" 3 0 (ratio 0 1) "gpt-4o"));
               (3, other_event "session.idle") ] in
  let st := event 0 (message_updated
                       (update "ses_1" "msg_1" "assistant" 70 20 (ratio 1 50) "o3")) init in
  sessions (run evs st) !! "ses_1" = sessions st !! "ses_1".
Proof. cbv zeta. apply session_record_frame. reflexivity. Defined.

(** ** What a slot holds *)

Lemma event_store t ev st key :
  messageSnapshots (event t ev st) !! key = store key (messageSnapshots st !! key) ev.
Proof.
  unfold store. destruct (assistantUpdate ev) as [m | ] eqn:E.
  - apply assistantUpdate_Some in E as [-> Hrole].
    rewrite event_assistant by exact Hrole. cbv zeta. cbn [messageSnapshots].
    fold (keyOf m). destruct (String.eqb_spec (keyOf m) key) as [<- | Hne].
    + apply lookup_insert_eq.
    + apply lookup_insert_ne. exact Hne.
  - destruct ev as [msg | ty]; [ | reflexivity ].
    rewrite event_skip; [ reflexivity | ].
    intros Hrole. cbn [assistantUpdate] in E. rewrite Hrole in E. discriminate.
Qed.

(** X2. Whatever the stream, each slot of [messageSnapshots] holds the
    snapshot of the last assistant update stored under its key (what it held
    before when there was none): slots are only ever overwritten, by the
    newest update, and never dropped. *)
Theorem slot_holds_last_update (evs : list (Z * Event)) (st : Plugin) (key : string) :
  messageSnapshots (run evs st) !! key = lastStored key (messageSnapshots st !! key) evs ∧
  (is_Some (messageSnapshots st !! key) → is_Some (messageSnapshots (run evs st) !! key)) ∧
  ∀ (t : Z) (msg : Message),
    role msg = "assistant" → keyOf msg = key →
    messageSnapshots (run (evs ++ [(t, message_updated msg)])%list st) !! key
    = Some (snapshotOf msg).
Proof.
  split; [ | split ].
  - revert st. induction evs as [ | [t ev] evs IH ]; intros st; [ reflexivity | ].
    cbn [run]. rewrite IH, event_store. reflexivity.
  - apply run_keeps_slot.
  - intros t msg Hrole <-. rewrite run_app. cbn [run].
    apply event_snapshot, Hrole.
Qed.

Lemma slot_holds_last_update_witness :
  let up n := message_updated (update "ses_1" "msg_1" "assistant" n 0 (ratio 0 1) "gpt-4o") in
  messageSnapshots (run ([(1, up 10); (2, up 40)] ++ [(3, up 25)])%list init)
    !! keyOf (update "ses_1" "msg_1" "assistant" 25 0 (ratio 0 1) "gpt-4o")
  = Some (snapshotOf (update "ses_1" "msg_1" "assistant" 25 0 (ratio 0 1) "gpt-4o")).
Proof.
  cbv zeta.
  apply (proj2 (proj2 (slot_holds_last_update _ init _))); reflexivity.
Defined.

(** ** The identifier sets and the start of a session *)

Lemma existsb_eqb_elem x (s : list string) : existsb (String.eqb x) s = true ↔ x ∈ s.
Proof.
  rewrite existsb_exists. split.
  - intros (y & Hy & E). apply String.eqb_eq in E. subst y. apply list_elem_of_In, Hy.
  - intros H. exists x. split; [ apply list_elem_of_In, H | apply String.eqb_refl ].
Qed.

Lemma set_add_elem_of x y (s : list string) : y ∈ set_add x s ↔ y = x ∨ y ∈ s.
Proof.
  unfold set_add. destruct (existsb (String.eqb x) s) eqn:E.
  - apply existsb_eqb_elem in E. split; [ auto | ]. intros [-> | H]; assumption.
  - rewrite elem_of_app, list_elem_of_singleton. tauto.
Qed.

Lemma set_add_NoDup x (s : list string) : NoDup s → NoDup (set_add x s).
Proof.
  intros H. unfold set_add. destruct (existsb (String.eqb x) s) eqn:E; [ exact H | ].
  apply NoDup_app. split; [ exact H | ]. split; [ | apply NoDup_singleton ].
  intros y Hy Hx. apply list_elem_of_singleton in Hx. subst y.
  apply existsb_eqb_elem in Hy. congruence.
Qed.

Lemma set_add_member x (s : list string) : x ∈ s → set_add x s = s.
Proof. intros H. unfold set_add. apply existsb_eqb_elem in H. rewrite H. reflexivity. Qed.

Lemma foldl_set_add_elem_of l : ∀ acc y,
  y ∈ foldl (fun a x => set_add x a) acc l ↔ y ∈ acc ∨ y ∈ l.
Proof.
  induction l as [ | x l IH ]; intros acc y; cbn [foldl].
  - rewrite elem_of_nil. tauto.
  - rewrite IH, set_add_elem_of, elem_of_cons. tauto.
Qed.

Lemma foldl_set_add_NoDup l : ∀ acc,
  NoDup acc → NoDup (foldl (fun a x => set_add x a) acc l).
Proof.
  induction l as [ | x l IH ]; intros acc H; [ exact H | ].
  cbn [foldl]. apply IH, set_add_NoDup, H.
Qed.

Lemma assistantUpdates_cons t ev evs :
  assistantUpdates ((t, ev) :: evs) =
  match assistantUpdate ev with
  | Some m => m :: assistantUpdates evs
  | None => assistantUpdates evs
  end.
Proof. reflexivity. Qed.

Lemma statsOf_now now now' st sid :
  models (statsOf now st sid) = models (statsOf now' st sid) ∧
  providers (statsOf now st sid) = providers (statsOf now' st sid) ∧
  messages (statsOf now st sid) = messages (statsOf now' st sid).
Proof. unfold statsOf. destruct (sessions st !! sid); repeat split. Qed.

Lemma statsOf_frame now t ev st sid :
  isUpdateOf sid ev = false → statsOf now (event t ev st) sid = statsOf now st sid.
Proof.
  intros H. unfold statsOf. rewrite event_session_other by exact H. reflexivity.
Qed.

Lemma statsOf_update now t msg st :
  role msg = "assistant" →
  statsOf now (event t (message_updated msg) st) (sessionID msg) =
  accumulate (statsOf t st (sessionID msg)) (prevOf st (keyOf msg))
    (isNewKey st (keyOf msg)) msg.
Proof.
  intros Hrole. unfold statsOf at 1.
  rewrite event_session_update by exact Hrole. reflexivity.
Qed.

(** The members of the two sets of a session along a stream. *)
Lemma run_models evs : ∀ st now sid,
  models (statsOf now (run evs st) sid) =
    foldl (fun a x => set_add x a) (models (statsOf now st sid)) (modelIds sid evs) ∧
  providers (statsOf now (run evs st) sid) =
    foldl (fun a x => set_add x a) (providers (statsOf now st sid)) (providerIds sid evs).
Proof.
  induction evs as [ | [t ev] evs IH ]; intros st now sid; [ split; reflexivity | ].
  cbn [run]. destruct (IH (event t ev st) now sid) as [IHm IHp]. rewrite IHm, IHp.
  unfold modelIds, providerIds. rewrite assistantUpdates_cons.
  destruct (assistantUpdate ev) as [m | ] eqn:E.
  - apply assistantUpdate_Some in E as [-> Hrole]. cbn [omap list_omap].
    destruct (String.eqb_spec (sessionID m) sid) as [<- | Hne].
    + rewrite statsOf_update by exact Hrole. unfold accumulate.
      cbn [models providers foldl].
      destruct (statsOf_now t now st (sessionID m)) as (-> & -> & _).
      split; reflexivity.
    + rewrite statsOf_frame; [ split; reflexivity | ].
      apply not_true_is_false. intros H. apply isUpdateOf_Some in H as (m' & [= <-] & _ & Hs).
      contradiction.
  - rewrite statsOf_frame; [ split; reflexivity | ].
    unfold isUpdateOf. rewrite E. reflexivity.
Qed.

(** X3. After any stream handled from the initial state, the [models] set
    of a session holds exactly the model identifiers of the session's
    assistant updates, each once, in order of first appearance; likewise the
    [providers] set. *)
Theorem identifier_sets_exact (evs : list (Z * Event)) (now : Z) (sid : string) :
  let stats := statsOf now (run evs init) sid in
  models stats = distinctList (modelIds sid evs) ∧
  providers stats = distinctList (providerIds sid evs) ∧
  NoDup (models stats) ∧ NoDup (providers stats) ∧
  (∀ x, x ∈ models stats ↔ x ∈ modelIds sid evs) ∧
  (∀ x, x ∈ providers stats ↔ x ∈ providerIds sid evs).
Proof.
  cbv zeta. destruct (run_models evs init now sid) as [Hm Hp].
  rewrite Hm, Hp. unfold statsOf. cbn. fold (distinctList (modelIds sid evs)).
  fold (distinctList (providerIds sid evs)). unfold distinctList.
  split; [ reflexivity | ]. split; [ reflexivity | ].
  split; [ apply foldl_set_add_NoDup, NoDup_nil_2 | ].
  split; [ apply foldl_set_add_NoDup, NoDup_nil_2 | ].
  split; intros x; rewrite foldl_set_add_elem_of, elem_of_nil; tauto.
Qed.

Lemma run_firstSeen evs : ∀ st sid,
  match sessions st !! sid with
  | Some stats =>
      ∃ stats', sessions (run evs st) !! sid = Some stats' ∧
                firstSeen stats' = firstSeen stats
  | None =>
      match firstUpdate sid evs with
      | Some t => ∃ stats', sessions (run evs st) !! sid = Some stats' ∧
                            firstSeen stats' = t
      | None => sessions (run evs st) !! sid = None
      end
  end.
Proof.
  induction evs as [ | [t ev] evs IH ]; intros st sid.
  - cbn [run firstUpdate]. destruct (sessions st !! sid) as [stats | ] eqn:E; eauto.
  - cbn [run firstUpdate]. specialize (IH (event t ev st) sid).
    destruct (isUpdateOf sid ev) eqn:Hup.
    + apply isUpdateOf_Some in Hup as (m & -> & Hrole & <-).
      rewrite event_session_update in IH by exact Hrole.
      destruct IH as (stats' & Hs & Hf). unfold accumulate in Hf. cbn [firstSeen] in Hf.
      unfold statsOf in Hf.
      destruct (sessions st !! sessionID m) as [stats | ]; eauto.
    + rewrite event_session_other in IH by exact Hup. exact IH.
Qed.

(** X4. A session gets its record with its first assistant update, and
    [firstSeen] is the clock reading of that update for good: from the
    initial state, a session has no record exactly when the stream has no
    assistant update for it, and later events never move [firstSeen]. *)
Theorem session_start (evs : list (Z * Event)) (sid : string) :
  (sessions (run evs init) !! sid = None ↔ firstUpdate sid evs = None) ∧
  (∀ stats, sessions (run evs init) !! sid = Some stats →
            firstUpdate sid evs = Some (firstSeen stats)) ∧
  (∀ (st : Plugin) (stats : SessionStats) (more : list (Z * Event)),
      sessions st !! sid = Some stats →
      ∃ stats', sessions (run more st) !! sid = Some stats' ∧
                firstSeen stats' = firstSeen stats).
Proof.
  pose proof (run_firstSeen evs init sid) as H. cbn [init sessions] in H.
  rewrite lookup_empty in H.
  split; [ | split ].
  - destruct (firstUpdate sid evs) as [t | ].
    + destruct H as (stats' & Hs & _). rewrite Hs. split; discriminate.
    + split; [ reflexivity | intros _; exact H ].
  - intros stats Hstats. destruct (firstUpdate sid evs) as [t | ].
    + destruct H as (stats' & Hs & Hf). rewrite Hs in Hstats.
      injection Hstats as <-. rewrite Hf. reflexivity.
    + rewrite H in Hstats. discriminate.
  - intros st stats more Hstats.
    pose proof (run_firstSeen more st sid) as Hm. rewrite Hstats in Hm. exact Hm.
Qed.

Lemma session_start_witness :
  let evs := [ (5, message_updated (update "ses_1" "msg_0" "user" 0 0 (ratio 0 1) "gpt-4o"));
               (8, message_updated (update "ses_1" "msg_1" "assistant" 10 5 (ratio 0 1) "gpt-4o"));
               (9, message_updated (update "ses_1" "msg_1" "assistant" 20 9 (ratio 0 1) "gpt-4o")) ] in
  firstUpdate "ses_1" evs = Some (firstSeen (statsOf 0 (run evs init) "ses_1")).
Proof.
  cbv zeta.
  apply (proj1 (proj2 (session_start _ "ses_1"))). reflexivity.
Defined.

(** ** The message counter, whatever the keys *)

Lemma run_slot_of_update evs : ∀ st m,
  m ∈ assistantUpdates evs → is_Some (messageSnapshots (run evs st) !! keyOf m).
Proof.
  induction evs as [ | [t ev] evs IH ]; intros st m Hm; [ inversion Hm | ].
  rewrite assistantUpdates_cons in Hm. cbn [run].
  destruct (assistantUpdate ev) as [m0 | ] eqn:E; [ | apply IH, Hm ].
  apply elem_of_cons in Hm as [-> | Hm]; [ | apply IH, Hm ].
  apply assistantUpdate_Some in E as [-> Hrole].
  apply run_keeps_slot. unfold keyOf. rewrite event_snapshot by exact Hrole. eauto.
Qed.

Lemma distinctCount_nonneg ids : 0 ≤ distinctCount ids.
Proof. unfold distinctCount. lia. Qed.

Lemma distinctCount_length ids : distinctCount ids ≤ Z.of_nat (length ids).
Proof.
  induction ids as [ | x ids IH ] using rev_ind; [ reflexivity | ].
  rewrite distinctCount_snoc, length_app. cbn [length].
  destruct (decide (x ∈ ids)); lia.
Qed.

Lemma messages_bounded evs : ∀ now sid,
  0 ≤ messages (statsOf now (run evs init) sid) ≤ distinctCount (messageIds sid evs).
Proof.
  induction evs as [ | [t ev] evs IH ] using rev_ind; intros now sid.
  - cbn. split; reflexivity.
  - rewrite run_app. cbn [run]. rewrite messageIds_snoc.
    destruct (assistantUpdate ev) as [msg | ] eqn:Hev.
    + apply assistantUpdate_Some in Hev as [-> Hrole].
      destruct (String.eqb_spec (sessionID msg) sid) as [<- | Hne].
      * rewrite statsOf_update by exact Hrole. unfold accumulate. cbn [messages].
        rewrite distinctCount_snoc. specialize (IH t (sessionID msg)).
        destruct (decide (msg_id msg ∈ messageIds (sessionID msg) evs)) as [Hin | Hout].
        -- assert (Hold : isNewKey (run evs init) (keyOf msg) = false).
           { apply isNewKey_spec.
             apply elem_of_messageIds in Hin as (m & Hm & Hs & Hi).
             replace (keyOf msg) with (keyOf m)
               by (unfold keyOf; rewrite Hs, Hi; reflexivity).
             apply run_slot_of_update, Hm. }
           rewrite Hold. lia.
        -- destruct (isNewKey (run evs init) (keyOf msg)); lia.
      * rewrite app_nil_r, statsOf_other by exact Hne. apply IH.
    + rewrite app_nil_r.
      rewrite statsOf_frame by (unfold isUpdateOf; rewrite Hev; reflexivity).
      apply IH.
Qed.

(** X5. Whatever the identifiers look like, the [messages] counter of a
    session never over-counts: after any stream it lies between 0 and the
    number of distinct message identifiers the session received assistant
    updates for, which is at most the number of these updates. *)
Theorem message_count_never_exceeds (evs : list (Z * Event)) (now : Z) (sid : string) :
  0 ≤ messages (statsOf now (run evs init) sid) ∧
  messages (statsOf now (run evs init) sid) ≤ distinctCount (messageIds sid evs) ∧
  distinctCount (messageIds sid evs) ≤ Z.of_nat (length (messageIds sid evs)).
Proof.
  destruct (messages_bounded evs now sid) as [H0 H1].
  split; [ exact H0 | ]. split; [ exact H1 | apply distinctCount_length ].
Qed.

(** ** Totals and stored snapshots *)

Lemma messageKey_inj_same s m m' : messageKey s m = messageKey s m' → m = m'.
Proof.
  induction s as [ | c s IH ]; rewrite ?messageKey_nil, ?messageKey_cons.
  - intros [= ->]. reflexivity.
  - intros [= E]. apply IH, E.
Qed.

Lemma prevOf_event_same t msg st :
  role msg = "assistant" →
  prevOf (event t (message_updated msg) st) (keyOf msg) = snapshotOf msg.
Proof.
  intros Hrole. unfold prevOf, keyOf. rewrite event_snapshot by exact Hrole.
  reflexivity.
Qed.

Lemma prevOf_event_other t msg st key :
  key ≠ keyOf msg →
  prevOf (event t (message_updated msg) st) key = prevOf st key.
Proof.
  intros Hne. unfold prevOf. rewrite event_frame; [ reflexivity | ].
  cbn [touches]. destruct (String.eqb_spec (keyOf msg) key) as [E | _].
  - symmetry in E. contradiction.
  - apply andb_false_r.
Qed.

Lemma distinctList_snoc l x : distinctList (l ++ [x])%list = set_add x (distinctList l).
Proof. unfold distinctList. rewrite foldl_snoc. reflexivity. Qed.

Lemma distinctList_elem_of l x : x ∈ distinctList l ↔ x ∈ l.
Proof. unfold distinctList. rewrite foldl_set_add_elem_of, elem_of_nil. tauto. Qed.

Lemma distinctList_NoDup l : NoDup (distinctList l).
Proof. apply foldl_set_add_NoDup, NoDup_nil_2. Qed.

Section Telescoping.

Context {A : Type} (zero one : A) (add mul sub : A → A → A) (opp : A → A).
Hypothesis Ath : ring_theory zero one add mul sub opp eq.
Add Ring Aring : Ath.

Variable total : SessionStats → A.
Variable field : Snapshot → A.
Hypothesis total_new : ∀ now, total (newSessionStats now) = zero.
Hypothesis field_zero : field zeroSnapshot = zero.
Hypothesis total_acc : ∀ stats prev isNew msg,
  total (accumulate stats prev isNew msg)
  = add (total stats) (sub (field (snapshotOf msg)) (field prev)).

Lemma sumWith_ext (f g : string → A) l :
  (∀ x, x ∈ l → g x = f x) → sumWith add zero g l = sumWith add zero f l.
Proof.
  induction l as [ | y l IH ]; intros H; [ reflexivity | ].
  cbn [sumWith foldr]. fold (sumWith add zero g l) (sumWith add zero f l).
  rewrite IH, (H y).
  - reflexivity.
  - apply elem_of_cons. left. reflexivity.
  - intros x Hx. apply H, elem_of_cons. right. exact Hx.
Qed.

Lemma sumWith_snoc (f : string → A) l x :
  sumWith add zero f (l ++ [x])%list = add (sumWith add zero f l) (f x).
Proof.
  induction l as [ | y l IH ]; cbn [app sumWith foldr].
  - ring.
  - fold (sumWith add zero f (l ++ [x])%list) (sumWith add zero f l).
    rewrite IH. ring.
Qed.

(** Changing the summand at one member of a duplicate-free list. *)
Lemma sumWith_update (f g : string → A) l x :
  NoDup l → x ∈ l → (∀ y, y ∈ l → y ≠ x → g y = f y) →
  add (sumWith add zero g l) (f x) = add (sumWith add zero f l) (g x).
Proof.
  induction 1 as [ | y l Hy Hnd IH ]; intros Hx Hoff; [ inversion Hx | ].
  cbn [sumWith foldr]. fold (sumWith add zero g l) (sumWith add zero f l).
  destruct (decide (y = x)) as [-> | Hne].
  - rewrite (sumWith_ext f g l).
    + ring.
    + intros z Hz. apply Hoff; [ apply elem_of_cons; right; exact Hz | ].
      intros ->. contradiction.
  - apply elem_of_cons in Hx as [-> | Hx]; [ contradiction | ].
    rewrite (Hoff y) by (try (apply elem_of_cons; left; reflexivity); exact Hne).
    transitivity (add (f y) (add (sumWith add zero g l) (f x))); [ ring | ].
    rewrite IH; [ ring | exact Hx | ].
    intros z Hz. apply Hoff, elem_of_cons. right. exact Hz.
Qed.

Lemma total_statsOf_now now now' st sid :
  total (statsOf now st sid) = total (statsOf now' st sid).
Proof. unfold statsOf. destruct (sessions st !! sid); [ reflexivity | ]. rewrite !total_new. reflexivity. Qed.

(** As long as the keys tell the pairs of the stream apart, the total of a
    session is the sum of what is stored for its messages. *)
Lemma total_is_sum_of_slots evs :
  injectiveOn (assistantUpdates evs) →
  ∀ now sid,
    total (statsOf now (run evs init) sid) =
    sumWith add zero (fun mid => field (prevOf (run evs init) (messageKey sid mid)))
      (distinctList (messageIds sid evs)).
Proof.
  induction evs as [ | [t ev] evs IH ] using rev_ind; intros Hinj now sid.
  - cbn. apply total_new.
  - assert (Hinj' : injectiveOn (assistantUpdates evs)).
    { unfold assistantUpdates in *. rewrite omap_app in Hinj.
      exact (injectiveOn_prefix _ _ Hinj). }
    specialize (IH Hinj').
    pose proof (consistent_run evs [] init consistent_init Hinj') as [Hslots _].
    cbn [app] in Hslots.
    rewrite run_app. cbn [run]. rewrite messageIds_snoc.
    rewrite assistantUpdates_snoc in Hinj.
    destruct (assistantUpdate ev) as [msg | ] eqn:Hev.
    + apply assistantUpdate_Some in Hev as [-> Hrole].
      destruct (String.eqb_spec (sessionID msg) sid) as [<- | Hne].
      * rewrite statsOf_update by exact Hrole. rewrite total_acc.
        rewrite (total_statsOf_now t now), IH, distinctList_snoc.
        set (f := fun mid => field (prevOf (run evs init) (messageKey (sessionID msg) mid))).
        set (g := fun mid => field (prevOf (event t (message_updated msg) (run evs init))
                                      (messageKey (sessionID msg) mid))).
        assert (Hg : g (msg_id msg) = field (snapshotOf msg)).
        { unfold g. fold (keyOf msg). rewrite prevOf_event_same by exact Hrole. reflexivity. }
        assert (Hoff : ∀ y, y ≠ msg_id msg → g y = f y).
        { intros y Hy. unfold g, f. rewrite prevOf_event_other; [ reflexivity | ].
          unfold keyOf. intros E. apply messageKey_inj_same in E. contradiction. }
        change (field (prevOf (run evs init) (keyOf msg))) with (f (msg_id msg)).
        rewrite <- Hg.
        destruct (decide (msg_id msg ∈ messageIds (sessionID msg) evs)) as [Hin | Hout].
        -- rewrite set_add_member by (apply distinctList_elem_of, Hin).
           pose proof (sumWith_update f g _ (msg_id msg) (distinctList_NoDup _)
                         (proj2 (distinctList_elem_of _ _) Hin)
                         (fun y _ Hy => Hoff y Hy)) as Hupd.
           transitivity (sub (add (sumWith add zero f (distinctList (messageIds (sessionID msg) evs)))
                                  (g (msg_id msg))) (f (msg_id msg))); [ ring | ].
           rewrite <- Hupd. ring.
        -- unfold set_add.
           destruct (existsb (String.eqb (msg_id msg)) (distinctList (messageIds (sessionID msg) evs)))
             eqn:Hex.
           { apply existsb_eqb_elem in Hex.
             apply (proj1 (distinctList_elem_of _ _)) in Hex. contradiction. }
           rewrite sumWith_snoc.
           rewrite (sumWith_ext f g).
           2:{ intros y Hy. apply Hoff. intros ->.
               apply (proj1 (distinctList_elem_of _ _)) in Hy. contradiction. }
           assert (Hfresh : f (msg_id msg) = zero).
           { unfold f. fold (keyOf msg). unfold prevOf.
             destruct (messageSnapshots (run evs init) !! keyOf msg) as [snap | ] eqn:Hs;
               [ | exact field_zero ].
             exfalso. apply Hout.
             destruct (proj1 (Hslots (keyOf msg)) (ex_intro _ snap Hs)) as (m & Hm & Hk).
             destruct (Hinj m msg) as [Hs' Hi'].
             { apply elem_of_app; left; exact Hm. }
             { apply elem_of_app; right; constructor. }
             { exact Hk. }
             apply elem_of_messageIds. exists m. auto. }
           rewrite Hfresh. ring.
      * rewrite app_nil_r, statsOf_other by exact Hne. rewrite IH.
        apply sumWith_ext. intros mid Hmid.
        rewrite prevOf_event_other; [ reflexivity | ].
        intros E. apply (proj1 (distinctList_elem_of _ _)) in Hmid.
        apply elem_of_messageIds in Hmid as (m & Hm & Hs & Hi).
        destruct (Hinj m msg) as [Hs' _].
        { apply elem_of_app; left; exact Hm. }
        { apply elem_of_app; right; constructor. }
        { unfold keyOf at 1. rewrite Hs, Hi. exact E. }
        congruence.
    + rewrite app_nil_r.
      assert (Hsame : event t ev (run evs init) = run evs init).
      { destruct ev as [msg | ty]; [ | reflexivity ].
        apply event_skip. intros Hrole.
        cbn [assistantUpdate] in Hev. rewrite Hrole in Hev. discriminate. }
      rewrite Hsame. apply IH.
Qed.

End Telescoping.

(** X6. As long as the keys tell the (session, message) pairs of the stream
    apart, each of the five token totals of a session equals the sum, over
    the distinct messages of the session, of the value currently stored in
    the message's snapshot slot: the deltas of successive updates telescope,
    whatever the order of the updates and whether or not the cumulative
    values grow.  (Nothing of the kind is stated of the cost total, whose
    additions round.) *)
Theorem totals_are_sums_of_slots (evs : list (Z * Event)) (now : Z) (sid : string) :
  collisionFree evs = true →
  let st := run evs init in
  let stats := statsOf now st sid in
  let ids := distinctList (messageIds sid evs) in
  let slot mid := prevOf st (messageKey sid mid) in
  inputTokens stats = sumOver (fun mid => snap_input (slot mid)) ids ∧
  outputTokens stats = sumOver (fun mid => snap_output (slot mid)) ids ∧
  reasoningTokens stats = sumOver (fun mid => snap_reasoning (slot mid)) ids ∧
  cacheReadTokens stats = sumOver (fun mid => snap_cacheRead (slot mid)) ids ∧
  cacheWriteTokens stats = sumOver (fun mid => snap_cacheWrite (slot mid)) ids.
Proof.
  intros Hfree st stats ids slot. subst st stats ids slot.
  apply collisionFree_injectiveOn in Hfree.
  repeat split.
  - exact (total_is_sum_of_slots 0 1 Z.add Z.mul Z.sub Z.opp Zth inputTokens snap_input
             (fun _ => eq_refl) eq_refl (fun _ _ _ _ => eq_refl) evs Hfree now sid).
  - exact (total_is_sum_of_slots 0 1 Z.add Z.mul Z.sub Z.opp Zth outputTokens snap_output
             (fun _ => eq_refl) eq_refl (fun _ _ _ _ => eq_refl) evs Hfree now sid).
  - exact (total_is_sum_of_slots 0 1 Z.add Z.mul Z.sub Z.opp Zth reasoningTokens
             snap_reasoning
             (fun _ => eq_refl) eq_refl (fun _ _ _ _ => eq_refl) evs Hfree now sid).
  - exact (total_is_sum_of_slots 0 1 Z.add Z.mul Z.sub Z.opp Zth cacheReadTokens
             snap_cacheRead
             (fun _ => eq_refl) eq_refl (fun _ _ _ _ => eq_refl) evs Hfree now sid).
  - exact (total_is_sum_of_slots 0 1 Z.add Z.mul Z.sub Z.opp Zth cacheWriteTokens
             snap_cacheWrite
             (fun _ => eq_refl) eq_refl (fun _ _ _ _ => eq_refl) evs Hfree now sid).
Qed.

Lemma totals_are_sums_of_slots_witness :
  let up mid n := message_updated (update "ses_1" mid "assistant" n 0 (ratio 0 1) "gpt-4o") in
  let evs := [ (1, up "msg_1" 0); (2, up "msg_2" 30); (3, up "msg_1" 120);
               (4, up "msg_2" 10); (5, up "msg_1" 50) ] in
  inputTokens (statsOf 0 (run evs init) "ses_1") = 50 + (10 + 0).
Proof.
  cbv zeta.
  refine (eq_trans (proj1 (totals_are_sums_of_slots _ 0 "ses_1" _)) _); reflexivity.
Defined.

Lemma run_slot_origin evs : ∀ key snap,
  messageSnapshots (run evs init) !! key = Some snap →
  ∃ m, m ∈ assistantUpdates evs ∧ snap = snapshotOf m.
Proof.
  induction evs as [ | [t ev] evs IH ] using rev_ind; intros key snap.
  - cbn. rewrite lookup_empty. discriminate.
  - rewrite run_app. cbn [run]. rewrite event_store, assistantUpdates_snoc.
    unfold store. destruct (assistantUpdate ev) as [m | ].
    + destruct (String.eqb (keyOf m) key).
      * intros [= <-]. exists m. split; [ | reflexivity ].
        apply elem_of_app. right. constructor.
      * intros H. destruct (IH key snap H) as (m' & Hm' & ->).
        exists m'. split; [ apply elem_of_app; left; exact Hm' | reflexivity ].
    + rewrite app_nil_r. apply IH.
Qed.

Lemma sumOver_nonneg (f : string → Z) ids : (∀ x, 0 ≤ f x) → 0 ≤ sumOver f ids.
Proof.
  intros H. induction ids as [ | x ids IH ]; cbn; [ lia | ].
  fold (sumOver f ids). specialize (H x). lia.
Qed.

(** X7. Hence, when the keys tell the pairs apart and no assistant update
    reports a negative token count, no token total of any session is ever
    negative -- even when the host resends smaller cumulative values, so that
    some deltas are negative. *)
Theorem totals_never_negative (evs : list (Z * Event)) (now : Z) (sid : string) :
  collisionFree evs = true →
  Forall (fun m => 0 ≤ input (tokens m) ∧ 0 ≤ output (tokens m) ∧
                   0 ≤ reasoning (tokens m) ∧ 0 ≤ read (cache (tokens m)) ∧
                   0 ≤ write (cache (tokens m)))
         (assistantUpdates evs) →
  let stats := statsOf now (run evs init) sid in
  0 ≤ inputTokens stats ∧ 0 ≤ outputTokens stats ∧ 0 ≤ reasoningTokens stats ∧
  0 ≤ cacheReadTokens stats ∧ 0 ≤ cacheWriteTokens stats ∧
  0 ≤ totalTokens (computeCO2 None stats).
Proof.
  intros Hfree Hpos stats. subst stats. apply collisionFree_injectiveOn in Hfree.
  rewrite List.Forall_forall in Hpos.
  assert (Hslot : ∀ key,
            0 ≤ snap_input (prevOf (run evs init) key) ∧
            0 ≤ snap_output (prevOf (run evs init) key) ∧
            0 ≤ snap_reasoning (prevOf (run evs init) key) ∧
            0 ≤ snap_cacheRead (prevOf (run evs init) key) ∧
            0 ≤ snap_cacheWrite (prevOf (run evs init) key)).
  { intros key. unfold prevOf.
    destruct (messageSnapshots (run evs init) !! key) as [snap | ] eqn:E.
    - destruct (run_slot_origin _ _ _ E) as (m & Hm & ->).
      apply list_elem_of_In in Hm. exact (Hpos m Hm).
    - cbn. lia. }
  assert (Hin : 0 ≤ inputTokens (statsOf now (run evs init) sid)).
  { rewrite (total_is_sum_of_slots 0 1 Z.add Z.mul Z.sub Z.opp Zth inputTokens snap_input
               (fun _ => eq_refl) eq_refl (fun _ _ _ _ => eq_refl) evs Hfree now sid).
    apply (sumOver_nonneg (fun mid => snap_input (prevOf (run evs init) (messageKey sid mid)))).
    intros x. apply Hslot. }
  assert (Hout : 0 ≤ outputTokens (statsOf now (run evs init) sid)).
  { rewrite (total_is_sum_of_slots 0 1 Z.add Z.mul Z.sub Z.opp Zth outputTokens snap_output
               (fun _ => eq_refl) eq_refl (fun _ _ _ _ => eq_refl) evs Hfree now sid).
    apply (sumOver_nonneg (fun mid => snap_output (prevOf (run evs init) (messageKey sid mid)))).
    intros x. apply Hslot. }
  assert (Hre : 0 ≤ reasoningTokens (statsOf now (run evs init) sid)).
  { rewrite (total_is_sum_of_slots 0 1 Z.add Z.mul Z.sub Z.opp Zth reasoningTokens
               snap_reasoning
               (fun _ => eq_refl) eq_refl (fun _ _ _ _ => eq_refl) evs Hfree now sid).
    apply (sumOver_nonneg
             (fun mid => snap_reasoning (prevOf (run evs init) (messageKey sid mid)))).
    intros x. apply Hslot. }
  repeat split; try assumption.
  - rewrite (total_is_sum_of_slots 0 1 Z.add Z.mul Z.sub Z.opp Zth cacheReadTokens
               snap_cacheRead
               (fun _ => eq_refl) eq_refl (fun _ _ _ _ => eq_refl) evs Hfree now sid).
    apply (sumOver_nonneg
             (fun mid => snap_cacheRead (prevOf (run evs init) (messageKey sid mid)))).
    intros x. apply Hslot.
  - rewrite (total_is_sum_of_slots 0 1 Z.add Z.mul Z.sub Z.opp Zth cacheWriteTokens
               snap_cacheWrite
               (fun _ => eq_refl) eq_refl (fun _ _ _ _ => eq_refl) evs Hfree now sid).
    apply (sumOver_nonneg
             (fun mid => snap_cacheWrite (prevOf (run evs init) (messageKey sid mid)))).
    intros x. apply Hslot.
  - cbn [computeCO2 totalTokens]. lia.
Qed.

Lemma totals_never_negative_witness :
  let up mid n := message_updated (update "ses_1" mid "assistant" n 0 (ratio 0 1) "gpt-4o") in
  let evs := [ (1, up "msg_1" 120); (2, up "msg_2" 30); (3, up "msg_1" 50) ] in
  0 ≤ inputTokens (statsOf 0 (run evs init) "ses_1").
Proof.
  cbv zeta.
  refine (proj1 (totals_never_negative _ 0 "ses_1" _ _)); [ reflexivity | ].
  repeat constructor; cbn; lia.
Defined.

(** ** Repeated and interleaved updates *)

Lemma plugin_eta (p : Plugin) :
  {| sessions := sessions p; messageSnapshots := messageSnapshots p |} = p.
Proof. destruct p. reflexivity. Qed.

(** An update that brings nothing new leaves the record as it is. *)
Lemma accumulate_same stats msg :
  modelID msg ∈ models stats → providerID msg ∈ providers stats →
  accumulate stats (snapshotOf msg) false msg = stats.
Proof.
  intros Hm Hp. destruct stats. unfold accumulate.
  cbn [snapshotOf snap_input snap_output snap_reasoning snap_cacheRead snap_cacheWrite
       snap_cost inputTokens outputTokens reasoningTokens cacheReadTokens
       cacheWriteTokens cost messages models providers firstSeen] in *.
  rewrite !Z.sub_diag, !Z.add_0_r, Qc_add_sub_same.
  rewrite (set_add_member _ _ Hm), (set_add_member _ _ Hp). reflexivity.
Qed.

Lemma event_keeps_members t ev st sid stats x y :
  sessions st !! sid = Some stats → x ∈ models stats → y ∈ providers stats →
  ∃ stats', sessions (event t ev st) !! sid = Some stats' ∧
            x ∈ models stats' ∧ y ∈ providers stats'.
Proof.
  intros Hs Hx Hy. destruct (isUpdateOf sid ev) eqn:Hup.
  - apply isUpdateOf_Some in Hup as (m & -> & Hrole & <-).
    rewrite event_session_update by exact Hrole. eexists. split; [ reflexivity | ].
    unfold accumulate, statsOf. rewrite Hs. cbn [models providers].
    split; apply set_add_elem_of; right; assumption.
  - rewrite event_session_other by exact Hup. eauto.
Qed.

Lemma run_keeps_members evs : ∀ st sid stats x y,
  sessions st !! sid = Some stats → x ∈ models stats → y ∈ providers stats →
  ∃ stats', sessions (run evs st) !! sid = Some stats' ∧
            x ∈ models stats' ∧ y ∈ providers stats'.
Proof.
  induction evs as [ | [t ev] evs IH ]; intros st sid stats x y Hs Hx Hy; [ eauto | ].
  cbn [run].
  destruct (event_keeps_members t ev st sid stats x y Hs Hx Hy) as (s1 & H1 & Hx1 & Hy1).
  exact (IH _ _ _ _ _ H1 Hx1 Hy1).
Qed.

(** X8. Re-sending an update at any later time, while no other update has
    been stored under its key in between, changes nothing at all: the deltas
    are zero, the message is not counted again, and its model and provider
    are already in the sets.  (Other updates of the same session may well
    have come in between.) *)
Theorem late_duplicate_is_noop (t t' : Z) (msg : Message)
    (between : list (Z * Event)) (st : Plugin) :
  untouched (keyOf msg) between = true →
  let st1 := run between (event t (message_updated msg) st) in
  event t' (message_updated msg) st1 = st1.
Proof.
  intros Hun st1.
  destruct (String.eqb_spec (role msg) "assistant") as [Hrole | Hrole];
    [ | apply event_skip, Hrole ].
  assert (Hslot : messageSnapshots st1 !! keyOf msg = Some (snapshotOf msg)).
  { subst st1. rewrite run_frame by exact Hun. apply event_snapshot, Hrole. }
  destruct (run_keeps_members between (event t (message_updated msg) st) (sessionID msg)
              _ (modelID msg) (providerID msg) (event_session_update t msg st Hrole))
    as (stats & Hstats & Hm & Hp).
  { unfold accumulate. cbn [models]. apply set_add_elem_of. left. reflexivity. }
  { unfold accumulate. cbn [providers]. apply set_add_elem_of. left. reflexivity. }
  fold st1 in Hstats. clearbody st1.
  rewrite event_assistant by exact Hrole. cbv zeta. fold (keyOf msg).
  unfold statsOf, prevOf, isNewKey. rewrite Hstats, Hslot.
  rewrite (accumulate_same stats msg Hm Hp).
  rewrite (insert_id _ _ _ Hstats), (insert_id _ _ _ Hslot).
  apply plugin_eta.
Qed.

Lemma late_duplicate_is_noop_witness :
  let msg := update "ses_1" "msg_1" "assistant" 50 10 (ratio 1 100) "gpt-4o" in
  let between := [ (2, message_updated (update "ses_1" "msg_2" "assistant" 7 1 (ratio 0 1) "o3"));
                   (3, message_updated (update "ses_2" "msg_1" "assistant" 9 9 (ratio 0 1) "o3")) ] in
  let st1 := run between (event 1 (message_updated msg) init) in
  event 4 (message_updated msg) st1 = st1.
Proof. cbv zeta. apply late_duplicate_is_noop. reflexivity. Defined.

(** Each update taken with its own clock reading: the two orders agree. *)
Lemma event_commute_tagged (t1 t2 : Z) (m1 m2 : Message) (st : Plugin) :
  sessionID m1 ≠ sessionID m2 → keyOf m1 ≠ keyOf m2 →
  event t1 (message_updated m1) (event t2 (message_updated m2) st) =
  event t2 (message_updated m2) (event t1 (message_updated m1) st).
Proof.
  intros Hs Hk.
  destruct (String.eqb_spec (role m1) "assistant") as [Hr1 | Hr1].
  2:{ rewrite !(event_skip _ m1) by exact Hr1. reflexivity. }
  destruct (String.eqb_spec (role m2) "assistant") as [Hr2 | Hr2].
  2:{ rewrite !(event_skip _ m2) by exact Hr2. reflexivity. }
  rewrite (event_assistant t1 m1 (event _ _ _)) by exact Hr1.
  rewrite (event_assistant t2 m2 (event _ _ _)) by exact Hr2.
  cbv zeta. fold (keyOf m1) (keyOf m2).
  rewrite !statsOf_other by (first [ exact Hs | intros E; apply Hs; symmetry; exact E ]).
  rewrite !prevOf_event_other by (first [ exact Hk | intros E; apply Hk; symmetry; exact E ]).
  assert (Hnew1 : isNewKey (event t2 (message_updated m2) st) (keyOf m1)
                  = isNewKey st (keyOf m1)).
  { unfold isNewKey. rewrite event_frame; [ reflexivity | ].
    cbn [touches]. apply andb_false_iff. right. apply String.eqb_neq.
    intros E. apply Hk. symmetry. exact E. }
  assert (Hnew2 : isNewKey (event t1 (message_updated m1) st) (keyOf m2)
                  = isNewKey st (keyOf m2)).
  { unfold isNewKey. rewrite event_frame; [ reflexivity | ].
    cbn [touches]. apply andb_false_iff. right. apply String.eqb_neq. exact Hk. }
  rewrite Hnew1, Hnew2.
  rewrite (event_assistant t1 m1 st) by exact Hr1.
  rewrite (event_assistant t2 m2 st) by exact Hr2.
  cbv zeta. cbn [sessions messageSnapshots]. fold (keyOf m1) (keyOf m2).
  f_equal; apply insert_insert_ne; assumption.
Qed.

Lemma forgetStart_accumulate stats stats' prev isNew msg :
  forgetStart stats = forgetStart stats' →
  forgetStart (accumulate stats prev isNew msg)
  = forgetStart (accumulate stats' prev isNew msg).
Proof.
  destruct stats, stats'. unfold forgetStart, accumulate. cbn.
  intros [= -> -> -> -> -> -> -> -> ->]. reflexivity.
Qed.

Lemma forgetStart_statsOf t t' st st' sid :
  sameButStart st st' →
  forgetStart (statsOf t st sid) = forgetStart (statsOf t' st' sid).
Proof.
  intros [_ Hs]. unfold statsOf.
  assert (H : (forgetStart <$> sessions st) !! sid = (forgetStart <$> sessions st') !! sid)
    by (rewrite Hs; reflexivity).
  rewrite !lookup_fmap in H.
  destruct (sessions st !! sid), (sessions st' !! sid); cbn in H;
    try discriminate; [ | reflexivity ].
  exact (f_equal (default (forgetStart (newSessionStats 0))) H).
Qed.

(** The clock reading of a call only ever ends up in [firstSeen]. *)
Lemma event_sameButStart (t t' : Z) (ev : Event) (st st' : Plugin) :
  sameButStart st st' → sameButStart (event t ev st) (event t' ev st').
Proof.
  intros Hsame. destruct ev as [msg | ty]; [ | exact Hsame ].
  destruct (String.eqb_spec (role msg) "assistant") as [Hrole | Hrole].
  - rewrite !event_assistant by exact Hrole. cbv zeta.
    pose proof (forgetStart_statsOf t t' st st' (sessionID msg) Hsame) as Hstats.
    destruct Hsame as [Hm Hs].
    unfold sameButStart, prevOf, isNewKey. cbn [sessions messageSnapshots].
    rewrite Hm. split; [ reflexivity | ].
    rewrite !fmap_insert, Hs. f_equal.
    apply forgetStart_accumulate, Hstats.
  - rewrite !event_skip by exact Hrole. exact Hsame.
Qed.

Lemma event_clock_existing (t t' : Z) (msg : Message) (st : Plugin) :
  is_Some (sessions st !! sessionID msg) →
  event t (message_updated msg) st = event t' (message_updated msg) st.
Proof.
  intros [stats Hstats].
  destruct (String.eqb_spec (role msg) "assistant") as [Hrole | Hrole].
  - rewrite !event_assistant by exact Hrole. cbv zeta.
    unfold statsOf. rewrite Hstats. reflexivity.
  - rewrite !event_skip by exact Hrole. reflexivity.
Qed.

(** X9. Two updates of different sessions stored under different keys can be
    handled in either order: the snapshots are the same, and so are the
    records up to [firstSeen], which is the clock reading of whichever call
    created the record.  When both sessions have a record already, the two
    orders give the same state. *)
Theorem updates_of_different_sessions_commute (ta tb : Z) (m1 m2 : Message)
    (st : Plugin) :
  sessionID m1 ≠ sessionID m2 → keyOf m1 ≠ keyOf m2 →
  let first12 := event tb (message_updated m2) (event ta (message_updated m1) st) in
  let first21 := event tb (message_updated m1) (event ta (message_updated m2) st) in
  sameButStart first12 first21 ∧
  (is_Some (sessions st !! sessionID m1) → is_Some (sessions st !! sessionID m2) →
   first12 = first21).
Proof.
  intros Hs Hk first12 first21. subst first12 first21.
  rewrite (event_commute_tagged tb ta m1 m2 st Hs Hk). split.
  - apply event_sameButStart, event_sameButStart. split; reflexivity.
  - intros H1 H2.
    rewrite (event_clock_existing ta tb m1 st H1).
    apply event_clock_existing.
    rewrite event_session_other; [ exact H2 | ].
    apply not_true_is_false. intros Hup.
    apply isUpdateOf_Some in Hup as (m & [= <-] & _ & E). contradiction.
Qed.

Lemma updates_of_different_sessions_commute_witness :
  let m1 := update "ses_1" "msg_2" "assistant" 50 10 (ratio 1 100) "gpt-4o" in
  let m2 := update "ses_2" "msg_2" "assistant" 70 30 (ratio 1 50) "o3" in
  let st := run [ (1, message_updated (update "ses_1" "msg_1" "assistant" 5 5 (ratio 0 1) "o3"));
                  (2, message_updated (update "ses_2" "msg_1" "assistant" 6 6 (ratio 0 1) "o3")) ]
                init in
  event 4 (message_updated m2) (event 3 (message_updated m1) st) =
  event 4 (message_updated m1) (event 3 (message_updated m2) st).
Proof.
  cbv zeta.
  apply (fun H1 H2 H3 H4 =>
           proj2 (updates_of_different_sessions_commute 3 4 _ _ _ H1 H2) H3 H4).
  - discriminate.
  - discriminate.
  - eexists. reflexivity.
  - eexists. reflexivity.
Defined.

(** ** The report tool *)

Lemma distinctCount_pos ids : ids ≠ [] → 1 ≤ distinctCount ids.
Proof.
  destruct ids as [ | x ids ]; [ congruence | ]. intros _. unfold distinctCount.
  assert (size (list_to_set (x :: ids) : gset string) ≠ 0%nat); [ | lia ].
  apply size_non_empty_iff. intros Hempty.
  apply (not_elem_of_empty (C:=gset string) x). rewrite <- Hempty.
  apply elem_of_list_to_set. constructor.
Qed.

Lemma co2_report_statsOf now st sid :
  co2_report st sid =
  if messages (statsOf now st sid) =? 0 then no_data else report (statsOf now st sid).
Proof. unfold co2_report, statsOf. destruct (sessions st !! sid); reflexivity. Qed.

(** X10. The tool answers "no data" for a session that has received no
    assistant update.  When the keys tell the pairs of the stream apart, it
    answers with the report of the session's record as soon as the session
    has received one, and the record then counts the distinct messages. *)
Theorem report_available (evs : list (Z * Event)) (sid : string) :
  (messageIds sid evs = [] → co2_report (run evs init) sid = no_data) ∧
  (collisionFree evs = true → messageIds sid evs ≠ [] →
   ∃ stats, sessions (run evs init) !! sid = Some stats ∧
            co2_report (run evs init) sid = report stats ∧
            messages stats = distinctCount (messageIds sid evs) ∧
            1 ≤ messages stats).
Proof.
  split.
  - intros Hnone. rewrite (co2_report_statsOf 0).
    pose proof (messages_bounded evs 0 sid) as Hb. rewrite Hnone in Hb.
    change (distinctCount []) with 0 in Hb.
    replace (messages (statsOf 0 (run evs init) sid)) with 0 by lia. reflexivity.
  - intros Hfree Hsome.
    pose proof (consistent_run evs [] init consistent_init
                  (collisionFree_injectiveOn _ Hfree)) as [_ Hcount].
    cbn [app] in Hcount. specialize (Hcount 0 sid).
    pose proof (distinctCount_pos _ Hsome) as Hpos.
    unfold co2_report. unfold statsOf in Hcount.
    destruct (sessions (run evs init) !! sid) as [stats | ].
    + exists stats. split; [ reflexivity | ].
      destruct (Z.eqb_spec (messages stats) 0) as [E | _]; [ lia | ].
      repeat split; [ exact Hcount | lia ].
    + cbn in Hcount. lia.
Qed.

Lemma report_available_witness :
  let evs := [ (1, message_updated (update "ses_1" "msg_1" "assistant" 10 5 (ratio 0 1) "gpt-4o"));
               (2, message_updated (update "ses_2" "msg_1" "user" 0 0 (ratio 0 1) "gpt-4o")) ] in
  co2_report (run evs init) "ses_2" = no_data ∧
  ∃ stats, sessions (run evs init) !! "ses_1" = Some stats ∧
           co2_report (run evs init) "ses_1" = report stats ∧
           messages stats = distinctCount (messageIds "ses_1" evs) ∧
           1 ≤ messages stats.
Proof.
  cbv zeta. split.
  - apply (proj1 (report_available _ "ses_2")). reflexivity.
  - apply (proj2 (report_available _ "ses_1")); [ reflexivity | discriminate ].
Defined.

Lemma firstUpdate_ids sid evs t :
  firstUpdate sid evs = Some t → modelIds sid evs ≠ [] ∧ providerIds sid evs ≠ [].
Proof.
  induction evs as [ | [t0 ev] evs IH ]; [ discriminate | ].
  cbn [firstUpdate]. unfold modelIds, providerIds. rewrite assistantUpdates_cons.
  unfold isUpdateOf. destruct (assistantUpdate ev) as [m | ]; [ | exact IH ].
  cbn [omap list_omap]. destruct (String.eqb (sessionID m) sid); [ | exact IH ].
  intros _. split; discriminate.
Qed.

Lemma distinctList_nonempty l : l ≠ [] → distinctList l ≠ [].
Proof.
  destruct l as [ | x l ]; [ congruence | ]. intros _ E.
  assert (H : x ∈ distinctList (x :: l)) by (apply distinctList_elem_of; constructor).
  rewrite E in H. inversion H.
Qed.

(** X11. Every record the plugin holds has at least one model and one
    provider, so the "- None recorded" lines of the report are never shown:
    the lists of the report are the bullets of the two sets. *)
Theorem report_lists_never_empty (evs : list (Z * Event)) (sid : string)
    (stats : SessionStats) :
  sessions (run evs init) !! sid = Some stats →
  models stats ≠ [] ∧ providers stats ≠ [] ∧
  modelLines stats =
    String.concat newline (map (fun m => "- **" ++ m ++ "**")%string (models stats)) ∧
  providerLines stats =
    String.concat newline (map (fun p => "- " ++ p)%string (providers stats)).
Proof.
  intros Hstats.
  pose proof (run_firstSeen evs init sid) as Hrun. cbn [init sessions] in Hrun.
  rewrite lookup_empty in Hrun.
  destruct (firstUpdate sid evs) as [t | ] eqn:Hfirst; [ | congruence ].
  destruct (firstUpdate_ids _ _ _ Hfirst) as [Hm Hp].
  destruct (run_models evs init 0 sid) as [Em Ep].
  unfold statsOf in Em, Ep. rewrite Hstats in Em, Ep. cbn in Em, Ep.
  fold (distinctList (modelIds sid evs)) in Em.
  fold (distinctList (providerIds sid evs)) in Ep.
  assert (Hm' : models stats ≠ []) by (rewrite Em; apply distinctList_nonempty, Hm).
  assert (Hp' : providers stats ≠ []) by (rewrite Ep; apply distinctList_nonempty, Hp).
  split; [ exact Hm' | ]. split; [ exact Hp' | ].
  unfold modelLines, providerLines.
  destruct (models stats); [ congruence | ]. destruct (providers stats); [ congruence | ].
  split; reflexivity.
Qed.

Lemma report_lists_never_empty_witness :
  let evs := [ (1, message_updated (update "ses_1" "msg_1" "assistant" 10 5 (ratio 0 1) "gpt-4o")) ] in
  modelLines (statsOf 0 (run evs init) "ses_1") = "- **gpt-4o**".
Proof.
  cbv zeta.
  refine (eq_trans (proj1 (proj2 (proj2
    (report_lists_never_empty
       [ (1, message_updated (update "ses_1" "msg_1" "assistant" 10 5 (ratio 0 1) "gpt-4o")) ]
       "ses_1" _ eq_refl)))) _); reflexivity.
Defined.

(** ** The estimate, at its edges *)

Lemma isZero_spec (q : Qc) : isZero q = true ↔ q = Q2Qc 0.
Proof.
  unfold isZero. rewrite Qeq_bool_iff. split.
  - intros H. apply Qc_is_canon. exact H.
  - intros ->. reflexivity.
Qed.

Lemma inject_zero (z : Z) : Q2Qc (inject_Z z) = Q2Qc 0 ↔ z = 0.
Proof. rewrite Q2Qc_eq_iff. unfold Qeq. cbn. lia. Qed.

Lemma inject_nonneg (z : Z) : 0 ≤ z → (Q2Qc 0 ≤ Q2Qc (inject_Z z))%Qc.
Proof.
  intros H. unfold Qcle. cbn [this Q2Qc]. rewrite !Qred_correct.
  unfold Qle. cbn. lia.
Qed.

Lemma isNeg_spec (q : Qc) : isNeg q = false ↔ (Q2Qc 0 ≤ q)%Qc.
Proof. unfold isNeg. rewrite negb_false_iff, Qle_bool_iff. reflexivity. Qed.

Lemma le_zero (q : Qc) : le (ofZ 0) (Fin q) = true ↔ (Q2Qc 0 ≤ q)%Qc.
Proof. unfold le, ofZ. rewrite Qle_bool_iff. reflexivity. Qed.

Lemma rate_positive (cls : ModelTier) :
  ∃ r, ENERGY_PER_TOKEN_KWH cls = Fin r ∧ (Q2Qc 0 < r)%Qc.
Proof. destruct cls; eexists; (split; [ reflexivity | reflexivity ]). Qed.

(** What the configuration can yield. *)
Lemma getGridIntensity_cases (env : option string) :
  getGridIntensity env = Inf false ∨
  ∃ g, getGridIntensity env = Fin g ∧ (Q2Qc 0 < g)%Qc.
Proof.
  assert (Hdefault : ∃ g, DEFAULT_GRID_INTENSITY = Fin g ∧ (Q2Qc 0 < g)%Qc).
  { eexists. split; reflexivity. }
  destruct env as [ s | ]; [ | right; exact Hdefault ].
  rewrite getGridIntensity_parsed.
  destruct (parseFloat s) as [ | [ | ] | q ].
  - right. exact Hdefault.
  - right. exact Hdefault.
  - left. reflexivity.
  - cbn [isNaN negb andb].
    destruct (gt (Fin q) (ofZ 0)) eqn:Hgt; [ | right; exact Hdefault ].
    right. exists q. split; [ reflexivity | apply gt_zero, Hgt ].
Qed.

(** X12. Whatever the override holds, the grid intensity in use is a number
    greater than 0 -- never NaN, never 0 or below: a positive finite value
    or positive infinity. *)
Theorem grid_intensity_positive (env : option string) :
  isNaN (getGridIntensity env) = false ∧
  gt (getGridIntensity env) (ofZ 0) = true ∧
  (getGridIntensity env = Inf false ∨
   ∃ g, getGridIntensity env = Fin g ∧ (Q2Qc 0 < g)%Qc).
Proof.
  pose proof (getGridIntensity_cases env) as H.
  split; [ | split; [ | exact H ] ].
  - destruct H as [-> | (g & -> & _)]; reflexivity.
  - destruct H as [-> | (g & -> & Hg)]; [ reflexivity | apply gt_zero, Hg ].
Qed.

(** X13. For token totals in the range that doubles hold exactly, the CO2
    figure is NaN in one case only: no counted token at all under an
    infinite grid intensity (the product of 0 and Infinity).  Otherwise, for
    a token total that is not negative, it is a non-negative number. *)
Theorem co2_figure_defined (env : option string) (stats : SessionStats) :
  safeTotals stats = true →
  let est := computeCO2 env stats in
  (isNaN (co2Grams est) = true ↔
   inputTokens stats + outputTokens stats + reasoningTokens stats = 0 ∧
   getGridIntensity env = Inf false) ∧
  (0 ≤ inputTokens stats + outputTokens stats + reasoningTokens stats →
   isNaN (co2Grams est) = false →
   le (ofZ 0) (co2Grams est) = true).
Proof.
  intros _. cbv zeta. unfold computeCO2. cbn [totalTokens energyKwh co2Grams].
  set (total := inputTokens stats + outputTokens stats + reasoningTokens stats).
  destruct (rate_positive (dominantLoop (models stats) small)) as (r & -> & Hr).
  cbn [mul ofZ].
  assert (Hzero : isZero (Q2Qc (inject_Z total) * r) = true ↔ total = 0).
  { rewrite isZero_spec. split.
    - intros H. apply Qcmult_integral in H as [H | H]; [ apply inject_zero, H | ].
      rewrite H in Hr. destruct (Qclt_not_eq _ _ Hr eq_refl).
    - intros ->. apply Qcmult_0_l. }
  destruct (getGridIntensity_cases env) as [-> | (g & -> & Hg)]; cbn [mul].
  - split.
    + destruct (isZero (Q2Qc (inject_Z total) * r)) eqn:Hz.
      * split; [ intros _; split; [ apply Hzero; reflexivity | reflexivity ] | reflexivity ].
      * split; [ discriminate | ]. intros [H0 _]. apply Hzero in H0. discriminate.
    + intros Hpos. destruct (isZero (Q2Qc (inject_Z total) * r)) eqn:Hz; [ discriminate | ].
      intros _. cbn [xorb].
      assert (Hneg : isNeg (Q2Qc (inject_Z total) * r) = false).
      { apply isNeg_spec. apply Qcmult_nonneg_nonneg.
        - apply inject_nonneg, Hpos.
        - apply Qclt_le_weak, Hr. }
      rewrite Hneg. reflexivity.
  - split.
    + split; [ discriminate | intros [_ H]; discriminate ].
    + intros Hpos _. apply le_zero. apply Qcmult_nonneg_nonneg.
      * apply Qcmult_nonneg_nonneg; [ apply inject_nonneg, Hpos | apply Qclt_le_weak, Hr ].
      * apply Qclt_le_weak, Hg.
Qed.

Lemma co2_figure_defined_witness :
  let stats := statsOf 0 (event 1 (message_updated
                 (update "ses_1" "msg_1" "assistant" 1000 500 (ratio 0 1) "claude-haiku-4-5"))
                 init) "ses_1" in
  le (ofZ 0) (co2Grams (computeCO2 None stats)) = true ∧
  co2Grams (computeCO2 None stats) = Fin (ratio 18 100).
Proof.
  cbv zeta. split.
  - apply (fun H1 H2 H3 => proj2 (co2_figure_defined None _ H1) H2 H3);
      [ reflexivity | apply Z.leb_le; reflexivity | reflexivity ].
  - vm_compute. f_equal. apply Qc_is_canon. reflexivity.
Defined.

(** ** The grade, at its edges, and the impact bar *)

Lemma getEcoGrade_ladder (co2 : number) (n : Z) :
  ∃ t, t ∈ ECO_THRESHOLDS ∧ getEcoGrade co2 n = threshold_grade t.
Proof.
  unfold getEcoGrade.
  destruct (firstWithin (perMessage co2 n) ECO_THRESHOLDS) as [g | ] eqn:Hg.
  - destruct (firstWithin_first _ _ _ Hg) as (i & t & Hi & -> & _).
    exists t. split; [ | reflexivity ]. apply list_elem_of_lookup. eauto.
  - eexists. split; [ | reflexivity ]. apply list_elem_of_In. cbn. tauto.
Qed.

Lemma getEcoGrade_mono (co2 co2' : number) (n n' : Z) :
  le (perMessage co2 n) (perMessage co2' n') = true →
  noWorse (getEcoGrade co2 n) (getEcoGrade co2' n').
Proof.
  intros Hle. unfold getEcoGrade.
  destruct (le_not_NaN _ _ Hle) as [Hp Hp'].
  destruct (firstWithin_ladder _ Hp) as [g Hg].
  destruct (firstWithin_ladder _ Hp') as [g' Hg'].
  rewrite Hg, Hg'.
  exact (firstWithin_mono _ ECO_THRESHOLDS_ascend _ _ _ _ Hle Hg Hg').
Qed.

(** X14. The loop of the grader runs to its end, so that the return after
    it is used, exactly when the per-message figure is NaN; the grade is
    then F.  And a session without messages is graded A+ whatever the CO2
    figure, NaN and Infinity included. *)
Theorem grade_edge_cases :
  (∀ p, firstWithin p ECO_THRESHOLDS = None ↔ isNaN p = true) ∧
  (∀ co2 n, isNaN (perMessage co2 n) = true → grade (getEcoGrade co2 n) = "F") ∧
  (∀ n, 0 < n → grade (getEcoGrade NaN n) = "F") ∧
  (∀ co2 n, n ≤ 0 → grade (getEcoGrade co2 n) = "A+").
Proof.
  split; [ | split; [ | split ] ].
  - intros p. split.
    + intros Hnone. destruct (isNaN p) eqn:Hp; [ reflexivity | ].
      destruct (firstWithin_ladder p Hp) as [g Hg]. congruence.
    + destruct p; try discriminate. reflexivity.
  - intros co2 n Hnan. unfold getEcoGrade.
    destruct (perMessage co2 n); try discriminate. reflexivity.
  - intros n Hn. unfold getEcoGrade, perMessage.
    rewrite (proj2 (Z.ltb_lt 0 n) Hn). reflexivity.
  - intros co2 n Hn. unfold getEcoGrade, perMessage.
    rewrite (proj2 (Z.ltb_ge 0 n) Hn). reflexivity.
Qed.

Lemma grade_edge_cases_witness :
  grade (getEcoGrade (Inf false) 0) = "A+" ∧ grade (getEcoGrade NaN 3) = "F".
Proof.
  split.
  - apply (proj2 (proj2 (proj2 grade_edge_cases))). lia.
  - apply (proj1 (proj2 (proj2 grade_edge_cases))). lia.
Defined.

Lemma repeat_count_same (x : N) n : count_occ N.eq_dec (repeat x n) x = n.
Proof. induction n as [ | n IH ]; cbn; [ reflexivity | ]. destruct (N.eq_dec x x); congruence. Qed.

Lemma repeat_count_other (x y : N) n : x ≠ y → count_occ N.eq_dec (repeat x n) y = 0%nat.
Proof. intros H. induction n as [ | n IH ]; cbn; [ reflexivity | ]. destruct (N.eq_dec x y); congruence. Qed.

(** X15. The impact bar always has twelve characters: the two brackets
    around ten cells, of which [level] clamped to 0..10 are full and the
    rest are light.  Every grade the grader returns has a level within
    1..10, so its bar shows exactly [level] full cells. *)
Theorem impact_bar_shape :
  (∀ lvl, length (impactBar lvl) = 12%nat ∧
          count_occ N.eq_dec (impactBar lvl) FULL_BLOCK = Z.to_nat (Z.min (Z.max lvl 0) 10) ∧
          count_occ N.eq_dec (impactBar lvl) LIGHT_SHADE
            = (10 - Z.to_nat (Z.min (Z.max lvl 0) 10))%nat) ∧
  (∀ lvl, lvl ≤ 0 → impactBar lvl = ([91%N] ++ repeat LIGHT_SHADE 10 ++ [93%N])%list) ∧
  (∀ lvl, 10 ≤ lvl → impactBar lvl = ([91%N] ++ repeat FULL_BLOCK 10 ++ [93%N])%list) ∧
  (∀ co2 n, 1 ≤ level (getEcoGrade co2 n) ≤ 10 ∧
            count_occ N.eq_dec (impactBar (level (getEcoGrade co2 n))) FULL_BLOCK
              = Z.to_nat (level (getEcoGrade co2 n))).
Proof.
  assert (Hshape : ∀ lvl,
            length (impactBar lvl) = 12%nat ∧
            count_occ N.eq_dec (impactBar lvl) FULL_BLOCK = Z.to_nat (Z.min (Z.max lvl 0) 10) ∧
            count_occ N.eq_dec (impactBar lvl) LIGHT_SHADE
              = (10 - Z.to_nat (Z.min (Z.max lvl 0) 10))%nat).
  { intros lvl. unfold impactBar. cbv zeta.
    set (filled := Z.min (Z.max lvl 0) 10).
    assert (Hf : 0 ≤ filled ≤ 10) by (subst filled; lia).
    split; [ | split ].
    - rewrite !length_app, !repeat_length. cbn [length]. lia.
    - rewrite !count_occ_app, repeat_count_same, repeat_count_other by discriminate.
      cbn. lia.
    - rewrite !count_occ_app, repeat_count_same, repeat_count_other by discriminate.
      cbn. lia. }
  split; [ exact Hshape | ]. split; [ | split ].
  - intros lvl Hl. unfold impactBar. cbv zeta.
    replace (Z.min (Z.max lvl 0) 10) with 0 by lia. reflexivity.
  - intros lvl Hl. unfold impactBar. cbv zeta.
    replace (Z.min (Z.max lvl 0) 10) with 10 by lia. reflexivity.
  - intros co2 n.
    assert (Hlevel : 1 ≤ level (getEcoGrade co2 n) ≤ 10).
    { destruct (getEcoGrade_ladder co2 n) as (t & Ht & ->).
      apply list_elem_of_In in Ht. cbn in Ht.
      repeat (destruct Ht as [<- | Ht]; [ cbn; lia | ]). destruct Ht. }
    split; [ exact Hlevel | ].
    rewrite (proj1 (proj2 (Hshape _))). f_equal. lia.
Qed.

Lemma impact_bar_shape_witness :
  impactBar (-3) = ([91%N] ++ repeat LIGHT_SHADE 10 ++ [93%N])%list ∧
  impactBar 25 = ([91%N] ++ repeat FULL_BLOCK 10 ++ [93%N])%list.
Proof.
  split.
  - apply (proj1 (proj2 impact_bar_shape)). lia.
  - apply (proj1 (proj2 (proj2 impact_bar_shape))). lia.
Defined.

(** ** More on classification and the estimate *)

Lemma classifyModel_steps_witness : classifyModel "Claude-Opus-Next" = tier large.
Proof.
  refine (eq_trans (classifyModel_steps "Claude-Opus-Next" _) _); reflexivity.
Defined.

(** X17. The substring heuristic ignores the case of the identifier: two
    identifiers that [MODEL_SIZE] has no property for and that agree up to
    case get the same class.  The table itself is matched as written, so
    that "o3-mini" is medium by the table while "O3-MINI" is small by the
    heuristic. *)
Theorem heuristic_ignores_case :
  (∀ a b, toLowerCase a = toLowerCase b →
          MODEL_SIZE_get a = None → MODEL_SIZE_get b = None →
          classifyModel a = classifyModel b) ∧
  (∀ a, toLowerCase (toLowerCase a) = toLowerCase a) ∧
  classifyModel "o3-mini" = tier medium ∧
  classifyModel "O3-MINI" = tier small.
Proof.
  split; [ | split; [ | split; reflexivity ] ].
  - intros a b Hab Ha Hb. unfold classifyModel. rewrite Ha, Hb, Hab. reflexivity.
  - intros a. induction a as [ | c a IH ]; [ reflexivity | ].
    cbn [toLowerCase]. rewrite IH. f_equal.
    unfold lowerChar.
    destruct c as [[ | ] [ | ] [ | ] [ | ] [ | ] [ | ] [ | ] [ | ]]; reflexivity.
Qed.

Lemma heuristic_ignores_case_witness :
  classifyModel "My-HAIKU-Tuned" = classifyModel "my-haiku-tuned".
Proof. apply (proj1 heuristic_ignores_case); reflexivity. Defined.

Lemma highestTier_mono ms ms' :
  (∀ m, m ∈ ms → m ∈ ms') → tierRank (highestTier ms) ≤ tierRank (highestTier ms').
Proof.
  intros Hsub.
  assert (Hex : ∀ t, existsb (classifiesAs t) ms = true →
                     existsb (classifiesAs t) ms' = true).
  { intros t H. apply existsb_classifiesAs in H as (m & Hm & Hc).
    apply existsb_classifiesAs. exists m. split; [ apply Hsub, Hm | exact Hc ]. }
  unfold highestTier.
  destruct (existsb (classifiesAs large) ms) eqn:HL.
  - rewrite (Hex large HL). reflexivity.
  - destruct (existsb (classifiesAs medium) ms) eqn:HM.
    + rewrite (Hex medium HM). destruct (existsb (classifiesAs large) ms'); cbn; lia.
    + destruct (existsb (classifiesAs large) ms'), (existsb (classifiesAs medium) ms');
        cbn; lia.
Qed.

Lemma rate_mono (cls cls' : ModelTier) (total : Z) :
  tierRank cls ≤ tierRank cls' → 0 ≤ total →
  le (mul (ofZ total) (ENERGY_PER_TOKEN_KWH cls))
     (mul (ofZ total) (ENERGY_PER_TOKEN_KWH cls')) = true.
Proof.
  intros Hrank Htotal.
  destruct (rate_positive cls) as (r & Er & _).
  destruct (rate_positive cls') as (r' & Er' & _).
  assert (Hr : (r ≤ r')%Qc).
  { destruct cls, cls'; cbn in Hrank; try lia;
      cbn in Er, Er'; injection Er as <-; injection Er' as <-; discriminate. }
  rewrite Er, Er'. cbn [mul ofZ le]. apply Qle_bool_iff.
  apply (Qcmult_le_mono_nonneg_l r r' (Q2Qc (inject_Z total))); [ | exact Hr ].
  apply inject_nonneg, Htotal.
Qed.

(** X18. The dominant class depends only on which models are in the set,
    not on their order, and it never goes down when models are added; for a
    token total that is not negative, neither does the energy figure. *)
Theorem more_models_never_lower (env : option string) (stats stats' : SessionStats) :
  (∀ m, m ∈ models stats → m ∈ models stats') →
  totalTokens (computeCO2 env stats) = totalTokens (computeCO2 env stats') →
  tierRank (dominantLoop (models stats) small)
    ≤ tierRank (dominantLoop (models stats') small) ∧
  ((∀ m, m ∈ models stats' → m ∈ models stats) →
   dominantLoop (models stats) small = dominantLoop (models stats') small) ∧
  (0 ≤ totalTokens (computeCO2 env stats) →
   le (energyKwh (computeCO2 env stats)) (energyKwh (computeCO2 env stats')) = true).
Proof.
  intros Hsub Htotal.
  pose proof (highestTier_mono _ _ Hsub) as Hrank.
  rewrite <- !dominantLoop_highestTier in Hrank.
  split; [ exact Hrank | ]. split.
  - intros Hsup. pose proof (highestTier_mono _ _ Hsup) as Hrank'.
    rewrite <- !dominantLoop_highestTier in Hrank'.
    destruct (dominantLoop (models stats) small), (dominantLoop (models stats') small);
      cbn in Hrank, Hrank'; try reflexivity; lia.
  - intros Hpos. unfold computeCO2 in *. cbn [energyKwh totalTokens] in *.
    rewrite <- Htotal. apply rate_mono; assumption.
Qed.

Lemma more_models_never_lower_witness :
  let s ms := {| inputTokens := 1000; outputTokens := 500; reasoningTokens := 0;
                 cacheReadTokens := 0; cacheWriteTokens := 0; cost := ratio 0 1;
                 messages := 2; models := ms; providers := ["anthropic"];
                 firstSeen := 0 |} in
  le (energyKwh (computeCO2 None (s ["claude-haiku-4-5"])))
     (energyKwh (computeCO2 None (s ["claude-haiku-4-5"; "claude-opus-4"]))) = true.
Proof.
  cbv zeta.
  apply (fun H1 H2 H3 => proj2 (proj2 (more_models_never_lower None _ _ H1 H2)) H3).
  - cbn [models]. intros m Hm. apply list_elem_of_singleton in Hm. subst m. constructor.
  - reflexivity.
  - cbn. lia.
Defined.

Lemma inject_le (a b : Z) : a ≤ b → (Q2Qc (inject_Z a) ≤ Q2Qc (inject_Z b))%Qc.
Proof.
  intros H. unfold Qcle. cbn [this Q2Qc]. rewrite !Qred_correct.
  unfold Qle. cbn. lia.
Qed.

Lemma inject_pos (n : Z) : 0 < n → (Q2Qc 0 < Q2Qc (inject_Z n))%Qc.
Proof.
  intros H. unfold Qclt. cbn [this Q2Qc]. rewrite !Qred_correct.
  unfold Qlt. cbn. lia.
Qed.

Lemma perMessage_Fin (x : Qc) (n : Z) :
  0 < n → perMessage (Fin x) n = Fin (x / Q2Qc (inject_Z n)).
Proof.
  intros Hn. unfold perMessage. rewrite (proj2 (Z.ltb_lt 0 n) Hn).
  unfold div, ofZ.
  destruct (isZero (Q2Qc (inject_Z n))) eqn:Hz; [ | reflexivity ].
  apply isZero_spec, inject_zero in Hz. lia.
Qed.

Lemma level_at_most_10 (co2 : number) (n : Z) : level (getEcoGrade co2 n) ≤ 10.
Proof.
  destruct (getEcoGrade_ladder co2 n) as (t & Ht & ->).
  apply list_elem_of_In in Ht. cbn in Ht.
  repeat (destruct Ht as [<- | Ht]; [ cbn; lia | ]). destruct Ht.
Qed.

(** Under an infinite grid intensity every session with messages is graded F:
    its CO2 figure is Infinity, or NaN when no token is counted. *)
Lemma infinite_grid_grade (e : Qc) (n : Z) :
  (Q2Qc 0 ≤ e)%Qc → 0 < n → level (getEcoGrade (mul (Fin e) (Inf false)) n) = 10.
Proof.
  intros He Hn. cbn [mul]. destruct (isZero e).
  - unfold getEcoGrade, perMessage. rewrite (proj2 (Z.ltb_lt 0 n) Hn). reflexivity.
  - rewrite (proj2 (isNeg_spec e) He). cbn [xorb].
    unfold getEcoGrade, perMessage. rewrite (proj2 (Z.ltb_lt 0 n) Hn).
    unfold div, ofZ.
    rewrite (proj2 (isNeg_spec (Q2Qc (inject_Z n)))
               (Qclt_le_weak _ _ (inject_pos n Hn))).
    reflexivity.
Qed.

(** X19. With the same models, the same number of messages and the same
    grid setting, a session that has counted more tokens never gets a better
    grade in its report. *)
Theorem more_tokens_never_better (env : option string) (stats stats' : SessionStats) :
  models stats = models stats' →
  messages stats = messages stats' →
  0 ≤ totalTokens (computeCO2 env stats) ≤ totalTokens (computeCO2 env stats') →
  noWorse (reportGrade env stats) (reportGrade env stats').
Proof.
  intros Hmodels Hn [Hpos Hle]. unfold reportGrade, computeCO2 in *.
  cbn [co2Grams totalTokens] in *. rewrite <- Hmodels, <- Hn.
  set (T := inputTokens stats + outputTokens stats + reasoningTokens stats) in *.
  set (T' := inputTokens stats' + outputTokens stats' + reasoningTokens stats') in *.
  set (n := messages stats).
  destruct (rate_positive (dominantLoop (models stats) small)) as (r & -> & Hr).
  change (mul (ofZ T) (Fin r)) with (Fin (Q2Qc (inject_Z T) * r)).
  change (mul (ofZ T') (Fin r)) with (Fin (Q2Qc (inject_Z T') * r)).
  assert (He : (Q2Qc 0 ≤ Q2Qc (inject_Z T) * r)%Qc).
  { apply Qcmult_nonneg_nonneg; [ apply inject_nonneg, Hpos | apply Qclt_le_weak, Hr ]. }
  assert (He' : (Q2Qc 0 ≤ Q2Qc (inject_Z T') * r)%Qc).
  { apply Qcmult_nonneg_nonneg; [ apply inject_nonneg; lia | apply Qclt_le_weak, Hr ]. }
  destruct (Z.ltb_spec 0 n) as [Hmsg | Hmsg].
  - destruct (getGridIntensity_cases env) as [-> | (g & -> & Hg)].
    + unfold noWorse. rewrite (infinite_grid_grade _ n He' Hmsg).
      apply level_at_most_10.
    + apply getEcoGrade_mono. cbn [mul]. rewrite !perMessage_Fin by exact Hmsg.
      cbn [le]. apply Qle_bool_iff. unfold Qcdiv.
      apply Qcmult_le_mono_nonneg_r.
      { apply Qclt_le_weak, Qcinv_pos, inject_pos, Hmsg. }
      apply Qcmult_le_mono_nonneg_r; [ apply Qclt_le_weak, Hg | ].
      apply Qcmult_le_mono_nonneg_r; [ apply Qclt_le_weak, Hr | ].
      apply inject_le, Hle.
  - apply getEcoGrade_mono. unfold perMessage.
    rewrite (proj2 (Z.ltb_ge 0 n) Hmsg). reflexivity.
Qed.

Lemma more_tokens_never_better_witness :
  let s tin := {| inputTokens := tin; outputTokens := 500; reasoningTokens := 0;
                  cacheReadTokens := 0; cacheWriteTokens := 0; cost := ratio 0 1;
                  messages := 1; models := ["claude-opus-4"]; providers := ["anthropic"];
                  firstSeen := 0 |} in
  noWorse (reportGrade (Some "700") (s 100)) (reportGrade (Some "700") (s 9000)).
Proof.
  cbv zeta. apply more_tokens_never_better; [ reflexivity | reflexivity | cbn; lia ].
Defined.

(** ** Sessions do not interfere *)

Lemma sessions_isolated evs sid :
  includes ":" sid = false →
  forallb (fun m => negb (includes ":" (sessionID m))) (assistantUpdates evs) = true →
  sessions (run evs init) !! sid = sessions (run (ownUpdates sid evs) init) !! sid ∧
  ∀ mid, messageSnapshots (run evs init) !! messageKey sid mid
         = messageSnapshots (run (ownUpdates sid evs) init) !! messageKey sid mid.
Proof.
  intros Hsid. induction evs as [ | [t ev] evs IH ] using rev_ind; intros Hfree.
  - split; reflexivity.
  - rewrite assistantUpdates_snoc, forallb_app in Hfree.
    apply andb_prop in Hfree as [Hfree Hev].
    destruct (IH Hfree) as [IHs IHm]. clear IH.
    unfold ownUpdates in *. rewrite List.filter_app. cbn [List.filter snd].
    rewrite run_app. cbn [run].
    destruct (isUpdateOf sid ev) eqn:Hup.
    + apply isUpdateOf_Some in Hup as (m & -> & Hrole & <-).
      rewrite run_app. cbn [run].
      rewrite !event_session_update by exact Hrole.
      unfold statsOf, prevOf, isNewKey, keyOf. rewrite IHs, (IHm (msg_id m)).
      split; [ reflexivity | ].
      intros mid. rewrite !event_store. unfold store. cbn [assistantUpdate].
      rewrite Hrole. cbn. rewrite (IHm mid). reflexivity.
    + rewrite app_nil_r. rewrite event_session_other by exact Hup.
      split; [ exact IHs | ].
      intros mid. rewrite event_store, <- IHm. unfold store.
      destruct (assistantUpdate ev) as [m | ] eqn:E; [ | reflexivity ].
      destruct (String.eqb_spec (keyOf m) (messageKey sid mid)) as [Hk | _];
        [ | reflexivity ].
      exfalso. cbn [forallb] in Hev. rewrite andb_true_r in Hev.
      apply negb_true_iff in Hev.
      destruct (messageKey_inj_sessions _ _ _ _ Hev Hsid Hk) as [Hs _].
      unfold isUpdateOf in Hup. rewrite E in Hup.
      apply String.eqb_neq in Hup. contradiction.
Qed.

(** X20. When no session identifier contains a colon, the record of a
    session, the answer of the tool for it and the slots of its messages are
    determined by the assistant updates of that session alone: dropping every
    other event from the stream changes none of them. *)
Theorem session_isolation (evs : list (Z * Event)) (sid : string) :
  includes ":" sid = false →
  forallb (fun m => negb (includes ":" (sessionID m))) (assistantUpdates evs) = true →
  sessions (run evs init) !! sid = sessions (run (ownUpdates sid evs) init) !! sid ∧
  co2_report (run evs init) sid = co2_report (run (ownUpdates sid evs) init) sid ∧
  ∀ mid, messageSnapshots (run evs init) !! messageKey sid mid
         = messageSnapshots (run (ownUpdates sid evs) init) !! messageKey sid mid.
Proof.
  intros Hsid Hfree. destruct (sessions_isolated evs sid Hsid Hfree) as [Hs Hm].
  split; [ exact Hs | ]. split; [ | exact Hm ].
  unfold co2_report. rewrite Hs. reflexivity.
Qed.

Lemma session_isolation_witness :
  let up sid mid n := message_updated (update sid mid "assistant" n 0 (ratio 0 1) "gpt-4o") in
  let evs := [ (1, up "ses_1" "msg_1" 10); (2, up "ses_2" "msg_1" 99);
               (3, other_event "session.idle"); (4, up "ses_1" "msg_1" 40) ] in
  sessions (run evs init) !! "ses_1"
  = sessions (run [ (1, up "ses_1" "msg_1" 10); (4, up "ses_1" "msg_1" 40) ] init) !! "ses_1".
Proof.
  cbv zeta.
  refine (proj1 (session_isolation
    [ (1, message_updated (update "ses_1" "msg_1" "assistant" 10 0 (ratio 0 1) "gpt-4o"));
      (2, message_updated (update "ses_2" "msg_1" "assistant" 99 0 (ratio 0 1) "gpt-4o"));
      (3, other_event "session.idle");
      (4, message_updated (update "ses_1" "msg_1" "assistant" 40 0 (ratio 0 1) "gpt-4o")) ]
    "ses_1" _ _)); reflexivity.
Defined.
